(** * A private blockchain: the chain store, block admission, the
      ownership-verification protocol, the validator and the star query

    Shallow embedding of [src/blockchain.js] (class [Blockchain]).

    Conventions of the embedding.
    - A JavaScript string is a [string]; its characters are the code units
      below 256.
    - A field that holds [null]/[undefined] or a string is an
      [option string]; [None] is the unset value and [Some ""] the empty
      string, which JavaScript also treats as falsy.
    - The field [previousBlockHash], which the validator compares with
      [!==], is a [JS.field]: such a value, or [NaN], the one value that is
      not strictly equal to itself.  (In [hash], which is only tested for
      truthiness and compared with strings, [NaN] behaves as the unset
      value does.)
    - A JavaScript number that is an integer or [NaN] is an [option Z],
      [None] being [NaN].  Heights are integers, hence [Z].
    - [new Date().getTime()] is an explicit argument [now] (milliseconds).
    - A promise is represented by the way it settles ([Promise]); a method
      that mutates [this] returns the new store next to its promise. *)

From Stdlib Require Import ZArith List Bool Lia.
From Stdlib Require Import Strings.String Strings.Ascii.
From Stdlib Require Import Numbers.DecimalString Numbers.DecimalPos.
From Stdlib Require Import Sorting.Permutation.
Import ListNotations.

Open Scope string_scope.
Open Scope Z_scope.

(** ** JavaScript primitives used by the class *)

Module JS.

(** [value1 === value2] on fields that are unset or strings. *)
Definition strict_eq (a b : option string) : bool :=
  match a, b with
  | None, None => true
  | Some x, Some y => String.eqb x y
  | _, _ => false
  end.

(** What a field compared with [!==] may hold: an unset value or a string,
    or [NaN]. *)
Inductive field : Type :=
| Plain (v : option string)
| NaN.

Definition isNaN (a : field) : bool :=
  match a with
  | NaN => true
  | Plain _ => false
  end.

(** [value1 === value2] on such fields: [NaN === NaN] is false. *)
Definition strict_eq_field (a b : field) : bool :=
  match a, b with
  | Plain x, Plain y => strict_eq x y
  | _, _ => false
  end.

(** Truthiness of such a field: [null], [undefined] and [''] are falsy. *)
Definition truthy_str (a : option string) : bool :=
  match a with
  | None => false
  | Some s => negb (String.eqb s "")
  end.

(** Truthiness of a number: [NaN] and [0] are falsy. *)
Definition truthy_num (n : option Z) : bool :=
  match n with
  | None => false
  | Some z => negb (z =? 0)
  end.

(** [a - b], [NaN] when an operand is. *)
Definition sub (a b : option Z) : option Z :=
  match a, b with
  | Some x, Some y => Some (x - y)
  | _, _ => None
  end.

(** [a < k] for an integer literal [k]; a comparison with [NaN] is false. *)
Definition lt (a : option Z) (k : Z) : bool :=
  match a with
  | Some x => x <? k
  | None => false
  end.

(** [s.split(sep)] for a one-character separator. *)
Fixpoint split (sep : ascii) (s : string) : list string :=
  match s with
  | EmptyString => [EmptyString]
  | String c rest =>
      if Ascii.eqb c sep then EmptyString :: split sep rest
      else match split sep rest with
           | field :: fields => String c field :: fields
           | [] => [String c EmptyString]
           end
  end.

(** [array[i]] on an array of strings; [undefined] out of range. *)
Definition index (fields : list string) (i : nat) : option string :=
  nth_error fields i.

(** [s.slice(0, -3)]: the string without its last three characters. *)
Definition slice_0_m3 (s : string) : string :=
  substring 0 (String.length s - 3) s.

(** [n.toString()] for an integer [n]. *)
Definition toString (n : Z) : string :=
  NilEmpty.string_of_int (Z.to_int n).

(** White space skipped by [parseInt], among the code units below 256. *)
Definition isWhiteSpace (c : ascii) : bool :=
  let n := nat_of_ascii c in
  ((9 <=? n) && (n <=? 13) || (n =? 32) || (n =? 160))%nat.

Fixpoint trimStart (s : string) : string :=
  match s with
  | EmptyString => EmptyString
  | String c rest => if isWhiteSpace c then trimStart rest else s
  end.

(** Value of a character as a digit, up to radix 36. *)
Definition digitValue (c : ascii) : option Z :=
  let n := nat_of_ascii c in
  if ((48 <=? n) && (n <=? 57))%nat then Some (Z.of_nat n - 48)
  else if ((97 <=? n) && (n <=? 122))%nat then Some (Z.of_nat n - 87)
  else if ((65 <=? n) && (n <=? 90))%nat then Some (Z.of_nat n - 55)
  else None.

(** Reads the longest prefix of radix-[radix] digits; [acc] is the value
    read so far, [None] while no digit has been read. *)
Fixpoint parseDigits (radix : Z) (s : string) (acc : option Z) : option Z :=
  match s with
  | EmptyString => acc
  | String c rest =>
      match digitValue c with
      | Some d =>
          if d <? radix
          then parseDigits radix rest
                 (Some (radix * match acc with Some a => a | None => 0 end + d))
          else acc
      | None => acc
      end
  end.

(** [parseInt(s)] with no radix argument: leading white space, an optional
    sign, an optional [0x]/[0X] prefix selecting radix 16, then digits;
    [NaN] when no digit follows. *)
Definition parseInt (s : string) : option Z :=
  let s1 := trimStart s in
  let '(sign, s2) :=
    match s1 with
    | String c rest =>
        if Ascii.eqb c "-" then (-1, rest)
        else if Ascii.eqb c "+" then (1, rest)
        else (1, s1)
    | EmptyString => (1, s1)
    end in
  let '(radix, s3) :=
    match s2 with
    | String c (String x rest) =>
        if Ascii.eqb c "0" && (Ascii.eqb x "x" || Ascii.eqb x "X")
        then (16, rest)
        else (10, s2)
    | _ => (10, s2)
    end in
  match parseDigits radix s3 None with
  | Some v => Some (sign * v)
  | None => None
  end.

(** [parseInt] of an absent argument: [parseInt(undefined)] is [NaN]. *)
Definition parseInt_opt (s : option string) : option Z :=
  match s with
  | Some s => parseInt s
  | None => None
  end.

End JS.

(** Strings of decimal digits, as [toString] prints them: the test, and the
    number denoted when the digits read before denote [acc]. *)
Definition isDigit (c : ascii) : bool :=
  ((48 <=? nat_of_ascii c) && (nat_of_ascii c <=? 57))%nat.

Fixpoint all_digits (s : string) : bool :=
  match s with
  | EmptyString => true
  | String c rest => isDigit c && all_digits rest
  end.

(** Whether the character [sep] occurs in [s]. *)
Fixpoint contains (sep : ascii) (s : string) : bool :=
  match s with
  | EmptyString => false
  | String c rest => Ascii.eqb c sep || contains sep rest
  end.

Fixpoint digits_value (acc : Z) (s : string) : Z :=
  match s with
  | EmptyString => acc
  | String c rest =>
      digits_value (10 * acc + (Z.of_nat (nat_of_ascii c) - 48)) rest
  end.

(** How a promise settles. *)
Inductive Promise (A E : Type) : Type :=
| Resolved (value : A)
| Rejected (reason : E).
Arguments Resolved {A E} value.
Arguments Rejected {A E} reason.

(** A promise whose executor may also return without settling it. *)
Inductive Outcome (A E : Type) : Type :=
| Settles (p : Promise A E)
| NeverSettles.
Arguments Settles {A E} p.
Arguments NeverSettles {A E}.

(** ** Data model *)

(** A block, with the fields [_addBlock], [validateChain] and the queries
    read and write. *)
Record Block : Type := mkBlock {
  hash : option string;
  height : Z;
  body : string;
  time : string;
  previousBlockHash : JS.field
}.

Definition set_time (b : Block) (t : string) : Block :=
  mkBlock (hash b) (height b) (body b) t (previousBlockHash b).
Definition set_height (b : Block) (h : Z) : Block :=
  mkBlock (hash b) h (body b) (time b) (previousBlockHash b).
Definition set_hash (b : Block) (h : option string) : Block :=
  mkBlock h (height b) (body b) (time b) (previousBlockHash b).
Definition set_previousBlockHash (b : Block) (p : JS.field) : Block :=
  mkBlock (hash b) (height b) (body b) (time b) p.

(** The chain store: [this.chain] and [this.height]. *)
Record Blockchain : Type := mkBlockchain {
  chain : list Block;
  chain_height : Z
}.

(** What [_addBlock] resolves with: [self] in the genesis branch, the block
    otherwise. *)
Inductive AddResult : Type :=
| TheStore (self : Blockchain)
| TheBlock (block : Block).

(** The rejection reasons of [submitStar]. *)
Definition IncorrectMessageFormat : string := "Incorrect message format".
Definition IncorrectTime : string := "Incorrect time".
Definition UnverifiedSignature : string := "Bitcoin message unverified.".

(** A block with only its payload populated: no hash and no previous hash
    yet ([height] and [time] are overwritten by admission). *)
Definition payload_only (b : Block) : Prop :=
  hash b = None /\ previousBlockHash b = JS.Plain None.

(** [new Date().getTime().toString().slice(0, -3)] at clock reading [now]. *)
Definition seconds_string (now : Z) : string :=
  JS.slice_0_m3 (JS.toString now).

(** [parseInt(new Date().getTime().toString().slice(0, -3))]. *)
Definition currentTime (now : Z) : option Z :=
  JS.parseInt (seconds_string now).

(** [parseInt(message.split(':')[1])]. *)
Definition messageTime (message : string) : option Z :=
  JS.parseInt_opt (JS.index (JS.split ":" message) 1).

(** The time test, [messageTime && currentTime - messageTime < 300]. *)
Definition in_window (messageTime currentTime : option Z) : bool :=
  JS.truthy_num messageTime && JS.lt (JS.sub currentTime messageTime) 300.

(** ** External collaborators *)

(** The object [{ address, message, signature, star }] built by
    [submitStar], and the sentinel [{ data: 'Genesis Block' }]; the star
    object is opaque. *)
Inductive Payload (Star : Type) : Type :=
| GenesisData
| StarData (address message signature : string) (star : Star).
Arguments GenesisData {Star}.
Arguments StarData {Star} address message signature star.

(** The decoded payload, as far as the query reads it; a payload without
    an [address] (the genesis sentinel) has [data_address = None]. *)
Record BData (Star : Type) : Type := mkBData {
  data_address : option string;
  data_star : option Star
}.
Arguments mkBData {Star} data_address data_star.
Arguments data_address {Star} b.
Arguments data_star {Star} b.

(** An element [{ owner, star }] of the array [stars]. *)
Record StarEntry (Star : Type) : Type := mkStarEntry {
  owner : option string;
  star : option Star
}.
Arguments mkStarEntry {Star} owner star.
Arguments owner {Star} s.
Arguments star {Star} s.

(** What the class takes from outside the file: [SHA256 s] stands for
    [SHA256(s).toString()] of crypto-js, [JSON_stringify] for
    [JSON.stringify] on a block, [verify] for
    [bitcoinMessage.verify(message, address, signature)]; [encode] is the
    payload encoding done by the constructor of [Block], and [getBData] is
    the way the promise of [block.getBData()] settles (it may resolve with
    a falsy value, [None], or reject); both belong to block.js. *)
Class Collaborators : Type := {
  Star : Type;
  SHA256 : string -> string;
  JSON_stringify : Block -> string;
  verify : string -> string -> string -> bool;
  encode : Payload Star -> string;
  getBData : Block -> Promise (option (BData Star)) string
}.

(** ** The class [Blockchain] *)

Section Model.

Context `{C : Collaborators}.

(** Modelled from the spec: the constructor of [Block] (block.js is not
    part of the sources).  It yields a block with only its payload
    populated. *)
Definition Block_new (data : Payload Star) : Block :=
  mkBlock None 0 (encode data) "" (JS.Plain None).

(** Modelled from the spec: [block.validate()] of block.js, which
    recomputes the hash from the block's own fields, the hash field
    excluded, and compares it with the stored hash. *)
Definition validate (b : Block) : bool :=
  JS.strict_eq (hash b) (Some (SHA256 (JSON_stringify (set_hash b None)))).

(** *** [_addBlock] *)

(** [self.chain.find((block) => block.height === self.height)]. *)
Definition find_tip (self : Blockchain) : option Block :=
  find (fun block => height block =? chain_height self) (chain self).

(** The linking step of the non-genesis branch. *)
Definition link (self : Blockchain) (block : Block) : Block :=
  match find_tip self with
  | None => block (* console.log('no previous block') *)
  | Some previousBlock =>
      if negb (JS.truthy_str (hash previousBlock))
      then block (* console.log('no previous block') *)
      else set_previousBlockHash block (JS.Plain (hash previousBlock))
  end.

Definition _addBlock (self : Blockchain) (block : Block) (now : Z)
  : Blockchain * Promise AddResult string :=
  match chain self with
  | [] =>
      let block := set_time block (seconds_string now) in
      let block := set_height block 0 in
      let block := set_hash block (Some (SHA256 (JSON_stringify block))) in
      let self' := mkBlockchain (chain self ++ [block])%list 0 in
      (self', Resolved (TheStore self'))
  | _ :: _ =>
      let block := set_time block (seconds_string now) in
      let block := link self block in
      let block := set_height block (chain_height self + 1) in
      let block := set_hash block (Some (SHA256 (JSON_stringify block))) in
      let self' :=
        mkBlockchain (chain self ++ [block])%list (chain_height self + 1) in
      (self', Resolved (TheBlock block))
  end.

(** *** The constructor and [initializeChain] *)

(** The store after [this.chain = []; this.height = -1]. *)
Definition empty_store : Blockchain := mkBlockchain [] (-1).

Definition initializeChain (self : Blockchain) (now : Z) : Blockchain :=
  if chain_height self =? -1
  then fst (_addBlock self (Block_new GenesisData) now)
  else self.

Definition constructor (now : Z) : Blockchain :=
  initializeChain empty_store now.

(** *** [requestMessageOwnershipVerification] *)

Definition requestMessageOwnershipVerification (address : string) (now : Z)
  : Promise string string :=
  Resolved (address ++ ":" ++ seconds_string now ++ ":starRegistry").

(** *** [submitStar] *)

(** [now] is the clock read by [submitStar] itself, [now_add] the one
    read afterwards by [_addBlock]. *)
Definition submitStar (self : Blockchain)
    (address message signature : string) (star : Star) (now now_add : Z)
  : Blockchain * Promise AddResult string :=
  let messageComponents := JS.split ":" message in
  if (List.length messageComponents =? 3)%nat then
    let messageTime := messageTime message in
    let currentTime := currentTime now in
    if in_window messageTime currentTime
    then
      if negb (verify message address signature)
      then (self, Rejected UnverifiedSignature)
      else
        let blockData := StarData address message signature star in
        let block := Block_new blockData in
        _addBlock self block now_add
    else (self, Rejected IncorrectTime)
  else (self, Rejected IncorrectMessageFormat).

(** *** [validateChain] *)

(** An entry of [errorLog]: [{ error: 'Block data was tempered',
    invalidBlock }] or [{ error: "Previous block hash doesn't match the
    hash of the previous block", hashOnPreviousBlock, invalidBlock }]. *)
Inductive Discrepancy : Type :=
| TamperedData (invalidBlock : Block)
| BrokenLinkage (hashOnPreviousBlock : JS.field) (invalidBlock : Block).

(** The state of the loop: the variable [previousBlockHash] and
    [errorLog]. *)
Definition LoopState : Type := (JS.field * list Discrepancy)%type.

(** One iteration of [for (const block of self.chain)]. *)
Definition validate_iteration (st : LoopState) (block : Block) : LoopState :=
  let '(previousBlockHash_var, errorLog) := st in
  let blockIsValid := validate block in
  if negb blockIsValid
  then (previousBlockHash_var, (errorLog ++ [TamperedData block])%list)
  else
    let previousBlockHash_var := previousBlockHash block in
    if (height block >? 0)
       && negb (JS.strict_eq_field (previousBlockHash block)
                  previousBlockHash_var)
    then (previousBlockHash_var,
          (errorLog ++ [BrokenLinkage previousBlockHash_var block])%list)
    else (previousBlockHash_var, errorLog).

(** Recognises the entries pushed by the linkage test. *)
Definition is_broken_linkage (e : Discrepancy) : bool :=
  match e with
  | BrokenLinkage _ _ => true
  | TamperedData _ => false
  end.

Definition validate_loop (blocks : list Block) : LoopState :=
  fold_left validate_iteration blocks (JS.Plain (Some ""), []).

(** [reject(errorLog)] settles the promise when the log is not empty; the
    [resolve] that follows it has no effect then. *)
Definition validateChain (self : Blockchain)
  : Blockchain * Promise string (list Discrepancy) :=
  let errorLog := snd (validate_loop (chain self)) in
  if (0 <? List.length errorLog)%nat
  then (self, Rejected errorLog)
  else (self, Resolved "Chain is valid").

(** What one iteration adds to [errorLog] for a block.  It does not
    depend on the state of the loop: the linkage test compares the block's
    field with the variable just assigned that field, and so fires only on
    [NaN]. *)
Definition entries_for (block : Block) : list Discrepancy :=
  if validate block
  then
    if (height block >? 0) && JS.isNaN (previousBlockHash block)
    then [BrokenLinkage JS.NaN block]
    else []
  else [TamperedData block].

(** The validator as section 4.3 of the specification words it: the
    block's recorded previous hash is compared with the expectation
    carried forward, and only then is the expectation advanced to the
    block's own [previousBlockHash] field. *)
Definition validate_iteration_spec (st : LoopState) (block : Block)
  : LoopState :=
  let '(expectedPreviousHash, errorLog) := st in
  if negb (validate block)
  then (expectedPreviousHash, (errorLog ++ [TamperedData block])%list)
  else
    let errorLog :=
      if (height block >? 0)
         && negb (JS.strict_eq_field (previousBlockHash block)
                    expectedPreviousHash)
      then (errorLog ++ [BrokenLinkage expectedPreviousHash block])%list
      else errorLog in
    (previousBlockHash block, errorLog).

Definition validate_loop_spec (blocks : list Block) : LoopState :=
  fold_left validate_iteration_spec blocks (JS.Plain (Some ""), []).

(** *** [getStarsByWalletAddress] *)

(** The callback handed to [then], run on the shared array [stars]. *)
Definition on_data (address : string) (stars : list (StarEntry Star))
    (data : option (BData Star)) : list (StarEntry Star) :=
  match data with
  | Some data =>
      if JS.strict_eq (data_address data) (Some address)
      then (stars ++ [mkStarEntry (data_address data) (data_star data)])%list
      else stars
  | None => stars
  end.

(** The reaction job of [block.getBData().then(...)]: the callback runs
    when the decoding promise resolved; a rejection has no handler and
    leaves [stars] alone. *)
Definition reaction (address : string) (stars : list (StarEntry Star))
    (block : Block) : list (StarEntry Star) :=
  match getBData block with
  | Resolved data => on_data address stars data
  | Rejected _ => stars
  end.

(** The call itself only registers one reaction per block, in chain
    order, and resolves with the array [stars], which is still empty at
    that point and is shared with the reactions. *)
Record StarsQuery : Type := mkStarsQuery {
  stars_at_resolve : list (StarEntry Star);
  reactions : list Block
}.

Definition getStarsByWalletAddress (self : Blockchain) (address : string)
  : StarsQuery :=
  mkStarsQuery [] (chain self).

(** The contents of the shared array once the reactions have run, in the
    order [completion] in which the decoding promises settled. *)
Definition stars_after (address : string) (q : StarsQuery)
    (completion : list Block) : list (StarEntry Star) :=
  fold_left (reaction address) completion (stars_at_resolve q).

(** What an awaiting caller reads in the array when its continuation
    runs.  The reaction of a decoding promise that was already settled when
    [then] was called was queued before the caller's continuation and has
    run by then, in chain order; the reaction of a promise that settles
    later has not run yet. *)
Definition stars_seen_by_caller (address : string) (q : StarsQuery)
    (settled_at_call : Block -> bool) : list (StarEntry Star) :=
  stars_after address q (filter settled_at_call (reactions q)).

(** The entry a block contributes to the query, if any. *)
Definition star_of (address : string) (block : Block) : list (StarEntry Star) :=
  reaction address [] block.

(** *** [getChainHeight], [getBlockByHash] and [getBlockByHeight] *)

Definition getChainHeight (self : Blockchain) : Promise Z string :=
  Resolved (chain_height self).

(** [resolve] is only reached when the chain is not empty; the result of
    [find] may be [undefined]. *)
Definition getBlockByHash (self : Blockchain) (hash_arg : string)
  : Outcome (option Block) string :=
  if (0 <? List.length (chain self))%nat
  then
    let foundBlock :=
      find (fun block => JS.strict_eq (hash block) (Some hash_arg))
        (chain self) in
    Settles (Resolved foundBlock)
  else NeverSettles.

Definition getBlockByHeight (self : Blockchain) (height_arg : Z)
  : Promise Block string :=
  let block :=
    find (fun chainBlock => height chainBlock =? height_arg) (chain self) in
  match block with
  | Some block => Resolved block
  | None => Rejected "Block Not Found!"
  end.

(** *** The stores of the class *)

(** The stores a client of the class sees: the one the constructor
    returns, and the ones left by calls of [submitStar]. *)
Inductive built : Blockchain -> Prop :=
| built_constructor (now : Z) : built (constructor now)
| built_submitStar (self : Blockchain) (address message signature : string)
    (star : Star) (now now_add : Z) :
    built self ->
    built (fst (submitStar self address message signature star now now_add)).


(** The stores the class goes through: the empty one the constructor
    starts from, and every store obtained from such a store by [_addBlock];
    the block admitted into an empty chain has only its payload populated
    (it is the one [initializeChain] builds), later ones are arbitrary.
    Each admitted block is a fresh object. *)
Inductive reachable : Blockchain -> Prop :=
| reachable_empty : reachable empty_store
| reachable_addBlock (self : Blockchain) (block : Block) (now : Z) :
    reachable self ->
    (chain self = [] -> payload_only block) ->
    reachable (fst (_addBlock self block now)).

(** The invariant of the chain store: heights are positions, the counter
    is the last position, the genesis block has no previous hash, and each
    later block records the hash of the block before it. *)
Definition store_invariant (self : Blockchain) : Prop :=
  (forall i b, nth_error (chain self) i = Some b -> height b = Z.of_nat i)
  /\ chain_height self = Z.of_nat (List.length (chain self)) - 1
  /\ (forall g, nth_error (chain self) 0 = Some g ->
        height g = 0 /\ previousBlockHash g = JS.Plain None)
  /\ (forall i b p,
        nth_error (chain self) (S i) = Some b ->
        nth_error (chain self) i = Some p ->
        previousBlockHash b = JS.Plain (hash p)).

(** What the preservation of the invariant needs besides: a stored hash
    is a non-empty string. *)
Definition hashed (b : Block) : Prop := JS.truthy_str (hash b) = true.

End Model.

(** ** A sample instance

    A small, executable choice of collaborators on which the functions can
    be run: the digest prefixes its input (so it is injective and never
    empty), a signature is valid when it spells [signed:] followed by the
    message, and a payload is encoded as [address,star]. *)

Definition sample_SHA256 (s : string) : string := "#" ++ s.

Definition show_field (f : option string) : string :=
  match f with
  | None => "null"
  | Some s => "'" ++ s ++ "'"
  end.

(** [JSON.stringify] writes [NaN] as [null]. *)
Definition show_link (f : JS.field) : string :=
  match f with
  | JS.Plain v => show_field v
  | JS.NaN => "null"
  end.

Definition sample_stringify (b : Block) : string :=
  show_field (hash b) ++ ";" ++ JS.toString (height b) ++ ";" ++ body b
  ++ ";" ++ time b ++ ";" ++ show_link (previousBlockHash b).

Definition sample_verify (message address signature : string) : bool :=
  String.eqb signature ("signed:" ++ message).

Definition sample_encode (data : Payload string) : string :=
  match data with
  | GenesisData => "Genesis Block"
  | StarData address _ _ star => address ++ "," ++ star
  end.

Definition sample_getBData (b : Block)
  : Promise (option (BData string)) string :=
  match JS.split "," (body b) with
  | [address; star] => Resolved (Some (mkBData (Some address) (Some star)))
  | _ => Rejected "no star data"
  end.

Definition sample : Collaborators :=
  Build_Collaborators string sample_SHA256 sample_stringify sample_verify
    sample_encode sample_getBData.

(** A store built by the class itself: construction, then two accepted
    submissions by two owners. *)
Definition sample_message_1 : string := "addr1:1700000000:starRegistry".
Definition sample_message_2 : string := "addr2:1700000100:starRegistry".

Definition sample_store_0 : Blockchain :=
  constructor (C := sample) 1699999999000.

Definition sample_store_1 : Blockchain :=
  fst (submitStar (C := sample) sample_store_0 "addr1" sample_message_1
         ("signed:" ++ sample_message_1) "Vega" 1700000010500 1700000010501).

Definition sample_store_2 : Blockchain :=
  fst (submitStar (C := sample) sample_store_1 "addr2" sample_message_2
         ("signed:" ++ sample_message_2) "Deneb" 1700000399999 1700000400000).

(** A store whose tip has an empty hash, and a store in which the payload
    of the block at height 1 was changed in place after admission. *)
Definition unhashed_tip : Block :=
  mkBlock (Some "") 0 "Genesis Block" "1699999999" (JS.Plain None).

Definition store_with_unhashed_tip : Blockchain :=
  mkBlockchain [unhashed_tip] 0.

Definition set_body (b : Block) (payload : string) : Block :=
  mkBlock (hash b) (height b) payload (time b) (previousBlockHash b).

Definition sample_store_tampered : Blockchain :=
  mkBlockchain
    (map (fun b => if height b =? 1 then set_body b "addr1,Sirius" else b)
       (chain sample_store_2))
    (chain_height sample_store_2).

(** A block at height 1 that holds [NaN] as its previous hash and was
    hashed that way, after the sample genesis block. *)
Definition nan_linked_block : Block :=
  let b := mkBlock None 1 "addr1,Vega" "1700000010" JS.NaN in
  set_hash b (Some (sample_SHA256 (sample_stringify b))).

Definition store_with_nan_link : Blockchain :=
  mkBlockchain (chain sample_store_0 ++ [nan_linked_block]) 1.

(** The sample store without its block at height 1. *)
Definition sample_store_cut : Blockchain :=
  mkBlockchain
    (filter (fun b => negb (height b =? 1)) (chain sample_store_2))
    (chain_height sample_store_2).

(** ** Properties *)

Section Properties.

Context `{C : Collaborators}.

(** *** The primitives on small inputs *)

Example split_challenge :
  JS.split ":" "addr1:1700000000:starRegistry"
  = ["addr1"; "1700000000"; "starRegistry"].
Proof. reflexivity. Qed.

Example split_empty : JS.split ":" "" = [""].
Proof. reflexivity. Qed.

Example split_trailing : JS.split ":" "a::" = ["a"; ""; ""].
Proof. reflexivity. Qed.

Example parseInt_prefix : JS.parseInt "  -12abc" = Some (-12).
Proof. reflexivity. Qed.

Example parseInt_hex : JS.parseInt "0x1f" = Some 31.
Proof. reflexivity. Qed.

Example parseInt_NaN : JS.parseInt "abc" = None /\ JS.parseInt "" = None.
Proof. split; reflexivity. Qed.

Example seconds_string_2023 : seconds_string 1700000000123 = "1700000000".
Proof. reflexivity. Qed.

Example currentTime_first_second : currentTime 999 = None.
Proof. reflexivity. Qed.

(** *** JavaScript primitives *)

Lemma strict_eq_refl (a : option string) : JS.strict_eq a a = true.
Proof.
  destruct a as [s|]; simpl; [apply String.eqb_refl | reflexivity].
Qed.

Lemma strict_eq_true (a b : option string) :
  JS.strict_eq a b = true <-> a = b.
Proof.
  destruct a as [x|], b as [y|]; simpl; split; intros H;
    try reflexivity; try discriminate.
  - apply String.eqb_eq in H. now subst.
  - injection H as ->. apply String.eqb_refl.
Qed.

Lemma truthy_str_true (a : option string) :
  JS.truthy_str a = true <-> exists s, a = Some s /\ s <> "".
Proof.
  destruct a as [s|]; simpl.
  - rewrite negb_true_iff, String.eqb_neq. split.
    + intros H. now exists s.
    + intros (s' & [= <-] & H). exact H.
  - split; [discriminate | intros (s & [=] & _)].
Qed.

(** The time test of [submitStar],
    [messageTime && currentTime - messageTime < 300], in arithmetic. *)
Lemma time_test_true (messageTime currentTime : option Z) :
  in_window messageTime currentTime = true
  <-> exists t c, messageTime = Some t /\ currentTime = Some c
                  /\ t <> 0 /\ c - t < 300.
Proof.
  unfold in_window.
  destruct messageTime as [t|], currentTime as [c|]; simpl;
    rewrite ?andb_true_iff, ?negb_true_iff, ?Z.eqb_neq, ?Z.ltb_lt.
  - split.
    + intros [Ht Hc]. now exists t, c.
    + intros (t' & c' & [= <-] & [= <-] & Ht & Hc). now split.
  - split; [intros [_ [=]] | intros (t' & c' & _ & [=] & _)].
  - split; [discriminate | intros (t' & c' & [=] & _)].
  - split; [discriminate | intros (t' & c' & [=] & _)].
Qed.

(** *** The clock, in seconds *)

Lemma isDigit_digitValue (c : ascii) :
  isDigit c = true ->
  JS.digitValue c = Some (Z.of_nat (nat_of_ascii c) - 48)
  /\ 0 <= Z.of_nat (nat_of_ascii c) - 48 < 10.
Proof.
  unfold isDigit, JS.digitValue. intros H. rewrite H.
  apply andb_true_iff in H as [H1 H2].
  apply Nat.leb_le in H1, H2. split; [reflexivity | lia].
Qed.

Lemma isDigit_plain (c : ascii) :
  isDigit c = true ->
  JS.isWhiteSpace c = false
  /\ Ascii.eqb c "-" = false /\ Ascii.eqb c "+" = false
  /\ Ascii.eqb c "x" = false /\ Ascii.eqb c "X" = false.
Proof.
  unfold isDigit, JS.isWhiteSpace. intros H.
  apply andb_true_iff in H as [H1 H2]. apply Nat.leb_le in H1, H2.
  split; [|repeat split;
            apply Ascii.eqb_neq; intros ->; vm_compute in H1, H2; lia].
  cbv zeta.
  replace (nat_of_ascii c <=? 13)%nat with false
    by (symmetry; apply Nat.leb_gt; lia).
  replace (nat_of_ascii c =? 32)%nat with false
    by (symmetry; apply Nat.eqb_neq; lia).
  replace (nat_of_ascii c =? 160)%nat with false
    by (symmetry; apply Nat.eqb_neq; lia).
  now rewrite andb_false_r.
Qed.

Lemma parseDigits_digits (s : string) :
  all_digits s = true ->
  forall acc,
    JS.parseDigits 10 s (Some acc) = Some (digits_value acc s).
Proof.
  induction s as [|c s IH]; simpl; intros Hs acc; trivial.
  apply andb_true_iff in Hs as [Hc Hs].
  destruct (isDigit_digitValue c Hc) as [-> Hrange].
  replace (Z.of_nat (nat_of_ascii c) - 48 <? 10) with true
    by (symmetry; apply Z.ltb_lt; lia).
  now apply IH.
Qed.

Lemma parseInt_digits (s : string) :
  all_digits s = true -> s <> "" ->
  JS.parseInt s = Some (digits_value 0 s).
Proof.
  destruct s as [|c s]; [congruence|]. intros Hs _.
  simpl in Hs. apply andb_true_iff in Hs as [Hc Hs].
  destruct (isDigit_plain c Hc) as (Hws & Hminus & Hplus & _).
  unfold JS.parseInt. simpl JS.trimStart. rewrite Hws, Hminus, Hplus.
  assert (Hradix :
            match String c s with
            | String c0 (String x rest) =>
                if Ascii.eqb c0 "0" && (Ascii.eqb x "x" || Ascii.eqb x "X")
                then (16, rest) else (10, String c s)
            | _ => (10, String c s)
            end = (10, String c s)).
  { destruct s as [|x rest]; trivial. simpl in Hs.
    apply andb_true_iff in Hs as [Hx _].
    destruct (isDigit_plain x Hx) as (_ & _ & _ & -> & ->).
    now rewrite andb_false_r. }
  rewrite Hradix. simpl JS.parseDigits.
  destruct (isDigit_digitValue c Hc) as [-> Hrange].
  replace (Z.of_nat (nat_of_ascii c) - 48 <? 10) with true
    by (symmetry; apply Z.ltb_lt; lia).
  rewrite parseDigits_digits by exact Hs. simpl.
  f_equal. destruct (digits_value _ s); reflexivity.
Qed.

Lemma digits_value_app (s1 s2 : string) :
  forall acc,
    digits_value acc (s1 ++ s2) = digits_value (digits_value acc s1) s2.
Proof.
  induction s1 as [|c s1 IH]; simpl; intros acc; trivial.
Qed.

Lemma digits_value_shift (s : string) :
  forall acc,
    digits_value acc s
    = acc * 10 ^ Z.of_nat (String.length s) + digits_value 0 s.
Proof.
  induction s as [|c s IH]; intros acc.
  - simpl. lia.
  - cbn [digits_value String.length]. rewrite IH.
    rewrite (IH (10 * 0 + _)).
    rewrite Nat2Z.inj_succ, Z.pow_succ_r by lia. ring.
Qed.

Lemma digits_value_bound (s : string) :
  all_digits s = true ->
  0 <= digits_value 0 s < 10 ^ Z.of_nat (String.length s).
Proof.
  induction s as [|c s IH]; intros Hs.
  - simpl. lia.
  - simpl in Hs. apply andb_true_iff in Hs as [Hc Hs].
    destruct (isDigit_digitValue c Hc) as [_ Hrange].
    cbn [digits_value String.length]. rewrite digits_value_shift.
    rewrite Nat2Z.inj_succ, Z.pow_succ_r by lia.
    specialize (IH Hs). nia.
Qed.

Lemma all_digits_app (s1 s2 : string) :
  all_digits (s1 ++ s2) = all_digits s1 && all_digits s2.
Proof.
  induction s1 as [|c s1 IH]; simpl; trivial.
  now rewrite IH, andb_assoc.
Qed.

(** [s.slice(0, -3)] cuts [s] into a prefix and at most three last
    characters. *)
Lemma prefix_split (n : nat) :
  forall s, (n <= String.length s)%nat ->
    exists last, s = substring 0 n s ++ last
                 /\ String.length last = (String.length s - n)%nat.
Proof.
  induction n as [|n IH]; intros s Hn.
  - exists s. destruct s; simpl; split; trivial.
  - destruct s as [|c s]; simpl in Hn; [lia|].
    destruct (IH s) as (last & Hs & Hlen); [lia|].
    exists last. simpl. split; [now rewrite <- Hs | exact Hlen].
Qed.

Lemma string_of_uint_digits (d : Decimal.uint) :
  all_digits (NilEmpty.string_of_uint d) = true.
Proof.
  induction d; simpl; trivial.
Qed.

Lemma digits_value_of_uint_acc (d : Decimal.uint) :
  forall acc : positive,
    digits_value (Zpos acc) (NilEmpty.string_of_uint d)
    = Zpos (Pos.of_uint_acc d acc).
Proof.
  induction d; intros acc;
    cbn [NilEmpty.string_of_uint digits_value Pos.of_uint_acc];
    trivial;
    rewrite <- IHd; f_equal;
    match goal with
    | |- context [Z.of_nat (nat_of_ascii ?c)] =>
        let n := eval vm_compute in (Z.of_nat (nat_of_ascii c)) in
        change (Z.of_nat (nat_of_ascii c)) with n
    end;
    lia.
Qed.

Lemma digits_value_of_uint (d : Decimal.uint) :
  digits_value 0 (NilEmpty.string_of_uint d) = Z.of_N (Pos.of_uint d).
Proof.
  induction d; cbn [NilEmpty.string_of_uint digits_value Pos.of_uint];
    trivial;
    match goal with
    | |- context [Z.of_nat (nat_of_ascii ?c)] =>
        let n :=
          eval vm_compute in (10 * 0 + (Z.of_nat (nat_of_ascii c) - 48)) in
        change (10 * 0 + (Z.of_nat (nat_of_ascii c) - 48)) with n
    end;
    trivial;
    now rewrite digits_value_of_uint_acc.
Qed.

Lemma toString_positive (p : positive) :
  all_digits (JS.toString (Zpos p)) = true
  /\ digits_value 0 (JS.toString (Zpos p)) = Zpos p.
Proof.
  unfold JS.toString. simpl. split.
  - apply string_of_uint_digits.
  - now rewrite digits_value_of_uint, Unsigned.of_to.
Qed.

(** From the first second of 1970 on, the text of the clock in seconds is
    a non-empty string of digits that denotes the clock in milliseconds
    divided by 1000. *)
Lemma seconds_string_digits (now : Z) :
  1000 <= now ->
  all_digits (seconds_string now) = true
  /\ seconds_string now <> ""
  /\ digits_value 0 (seconds_string now) = now / 1000.
Proof.
  intros Hnow. destruct now as [|p|p]; try lia.
  destruct (toString_positive p) as [Hdigits Hvalue].
  unfold seconds_string, JS.slice_0_m3.
  set (s := JS.toString (Z.pos p)) in *.
  destruct (prefix_split (String.length s - 3) s) as (last & Hs & Hlen);
    [lia|].
  set (s1 := substring 0 (String.length s - 3) s) in *.
  assert (Hd12 : all_digits s1 = true /\ all_digits last = true).
  { apply andb_true_iff. now rewrite <- all_digits_app, <- Hs. }
  destruct Hd12 as [Hd1 Hd2].
  pose proof (digits_value_bound last Hd2) as Hlast.
  pose proof (digits_value_bound s1 Hd1) as Hfirst.
  rewrite Hs, digits_value_app, digits_value_shift in Hvalue.
  assert (Hpow : 10 ^ Z.of_nat (String.length last) <= 1000).
  { change 1000 with (10 ^ 3). apply Z.pow_le_mono_r; lia. }
  assert (Hnonempty : s1 <> "").
  { intros Hempty. rewrite Hempty in Hvalue. simpl in Hvalue. lia. }
  assert (Hthree : String.length last = 3%nat).
  { destruct s1 as [|c s1']; [congruence|].
    assert (String.length s = S (String.length s1' + String.length last)).
    { rewrite Hs at 1. simpl. f_equal.
      clear. induction s1' as [|c s1' IH]; simpl; congruence. }
    lia. }
  rewrite Hthree in *. change (10 ^ Z.of_nat 3) with 1000 in *.
  split; [exact Hd1|]. split; [exact Hnonempty|].
  apply Z.div_unique with (r := digits_value 0 last); lia.
Qed.

(** Hence the clock in seconds is the clock in milliseconds divided by
    1000. *)
Lemma currentTime_seconds (now : Z) :
  1000 <= now -> currentTime now = Some (now / 1000).
Proof.
  intros Hnow.
  destruct (seconds_string_digits now Hnow) as (Hdigits & Hnonempty & Hvalue).
  unfold currentTime. rewrite parseInt_digits by assumption.
  now rewrite Hvalue.
Qed.

(** *** The challenge *)

Lemma split_without_separator (sep : ascii) (s : string) :
  contains sep s = false -> JS.split sep s = [s].
Proof.
  induction s as [|c s IH]; simpl; trivial.
  intros H. apply orb_false_iff in H as [Hc Hs].
  now rewrite Hc, (IH Hs).
Qed.

Lemma split_first_field (sep : ascii) (s rest : string) :
  contains sep s = false ->
  JS.split sep (s ++ String sep rest) = s :: JS.split sep rest.
Proof.
  induction s as [|c s IH]; simpl.
  - intros _. now rewrite Ascii.eqb_refl.
  - intros H. apply orb_false_iff in H as [Hc Hs].
    now rewrite Hc, (IH Hs).
Qed.

Lemma digits_without_colon (s : string) :
  all_digits s = true -> contains ":" s = false.
Proof.
  induction s as [|c s IH]; simpl; trivial.
  intros H. apply andb_true_iff in H as [Hc Hs].
  rewrite (IH Hs), orb_false_r.
  apply Ascii.eqb_neq. intros ->. discriminate Hc.
Qed.

(** The message issued for an address without a colon, at a clock reading
    from the first second of 1970 on, has three fields, and its time stamp
    reads back as the clock in seconds at the time of issue. *)
Lemma challenge_fields (address : string) (now : Z) :
  contains ":" address = false ->
  1000 <= now ->
  exists message,
    requestMessageOwnershipVerification address now = Resolved message
    /\ JS.split ":" message = [address; seconds_string now; "starRegistry"]
    /\ messageTime message = Some (now / 1000).
Proof.
  intros Haddress Hnow.
  destruct (seconds_string_digits now Hnow) as (Hdigits & Hnonempty & Hvalue).
  eexists. split; [reflexivity|].
  assert (Hsplit : JS.split ":"
                     (address ++ ":" ++ seconds_string now ++ ":starRegistry")
                   = [address; seconds_string now; "starRegistry"]).
  { change (":" ++ seconds_string now ++ ":starRegistry")
      with (String ":" (seconds_string now ++ String ":" "starRegistry")).
    rewrite split_first_field by exact Haddress.
    rewrite split_first_field by now apply digits_without_colon.
    reflexivity. }
  split; [exact Hsplit|].
  unfold messageTime. rewrite Hsplit. simpl.
  rewrite parseInt_digits by assumption. now rewrite Hvalue.
Qed.

(** *** [_addBlock] always resolves *)

Lemma addBlock_resolves (self : Blockchain) (block : Block) (now : Z) :
  exists v, snd (_addBlock self block now) = Resolved v.
Proof.
  unfold _addBlock. destruct (chain self); simpl; eauto.
Qed.

(** *** [submitStar]: the three guards, outermost first *)

Lemma submitStar_bad_format self address message signature star now now_add :
  List.length (JS.split ":" message) <> 3%nat ->
  submitStar self address message signature star now now_add
  = (self, Rejected IncorrectMessageFormat).
Proof.
  intros H. unfold submitStar.
  apply Nat.eqb_neq in H. now rewrite H.
Qed.

Lemma submitStar_bad_time self address message signature star now now_add :
  List.length (JS.split ":" message) = 3%nat ->
  in_window (messageTime message) (currentTime now) = false ->
  submitStar self address message signature star now now_add
  = (self, Rejected IncorrectTime).
Proof.
  intros Hlen Htime. unfold submitStar.
  apply Nat.eqb_eq in Hlen. now rewrite Hlen, Htime.
Qed.

Lemma submitStar_in_window self address message signature star now now_add :
  List.length (JS.split ":" message) = 3%nat ->
  in_window (messageTime message) (currentTime now) = true ->
  submitStar self address message signature star now now_add
  = if verify message address signature
    then _addBlock self (Block_new (StarData address message signature star))
           now_add
    else (self, Rejected UnverifiedSignature).
Proof.
  intros Hlen Htime. unfold submitStar.
  apply Nat.eqb_eq in Hlen. rewrite Hlen, Htime.
  now destruct (verify message address signature).
Qed.

(** In the time window the promise is never rejected with
    [IncorrectTime]. *)
Lemma in_window_not_IncorrectTime self address message signature star
    now now_add :
  List.length (JS.split ":" message) = 3%nat ->
  in_window (messageTime message) (currentTime now) = true ->
  snd (submitStar self address message signature star now now_add)
  <> Rejected IncorrectTime.
Proof.
  intros Hlen Htime.
  rewrite (submitStar_in_window _ _ _ _ _ _ _ Hlen Htime).
  destruct (verify message address signature).
  - destruct (addBlock_resolves self
                (Block_new (StarData address message signature star)) now_add)
      as [v Hv].
    rewrite Hv. discriminate.
  - simpl. discriminate.
Qed.

(** C7.  [submitStar] rejects with [IncorrectMessageFormat] exactly when
    [message.split(':')] does not have three fields.  The statement holds
    for every verification primitive [verify], that is, whatever the
    validity of the signature: the format test comes first. *)
Theorem submitStar_format_iff self address message signature star now now_add :
  snd (submitStar self address message signature star now now_add)
  = Rejected IncorrectMessageFormat
  <-> List.length (JS.split ":" message) <> 3%nat.
Proof.
  split.
  - intros H Hlen.
    destruct (in_window (messageTime message) (currentTime now)) eqn:Htime.
    + rewrite (submitStar_in_window _ _ _ _ _ _ _ Hlen Htime) in H.
      destruct (verify message address signature).
      * destruct (addBlock_resolves self
                    (Block_new (StarData address message signature star))
                    now_add) as [v Hv].
        rewrite Hv in H. discriminate H.
      * simpl in H. discriminate H.
    + rewrite (submitStar_bad_time _ _ _ _ _ _ _ Hlen Htime) in H.
      simpl in H. discriminate H.
  - intros Hlen. now rewrite submitStar_bad_format.
Qed.

(** C8.  A three-field message whose time stamp is in the window and whose
    signature does not verify is rejected with [UnverifiedSignature], and
    the store is returned as it was: no block is built or appended and the
    height is untouched. *)
Theorem submitStar_unverified_signature self address message signature star
    now now_add t c :
  List.length (JS.split ":" message) = 3%nat ->
  messageTime message = Some t ->
  t <> 0 ->
  currentTime now = Some c ->
  c - t < 300 ->
  verify message address signature = false ->
  submitStar self address message signature star now now_add
  = (self, Rejected UnverifiedSignature).
Proof.
  intros Hlen Ht Hnz Hc Hwin Hsig.
  rewrite submitStar_in_window; trivial.
  - now rewrite Hsig.
  - apply time_test_true. now exists t, c.
Qed.

(** C10.  The time test bounds the elapsed time from above only: when the
    second field parses to a non-zero integer that lies after the current
    time, however far, the elapsed time is negative, hence below 300, and
    the submission is not rejected with [IncorrectTime]. *)
Theorem submitStar_future_timestamp self address message signature star
    now now_add t c :
  List.length (JS.split ":" message) = 3%nat ->
  messageTime message = Some t ->
  t <> 0 ->
  currentTime now = Some c ->
  c < t ->
  JS.sub (currentTime now) (Some t) = Some (c - t)
  /\ c - t < 0
  /\ snd (submitStar self address message signature star now now_add)
     <> Rejected IncorrectTime.
Proof.
  intros Hlen Ht Hnz Hc Hfut. repeat split.
  - now rewrite Hc.
  - lia.
  - apply in_window_not_IncorrectTime; trivial.
    apply time_test_true. exists t, c. repeat split; trivial. lia.
Qed.

(** C6.  For a three-field message and a clock that reads [c] seconds, at
    least 299 (any clock set later than the first five minutes of 1970):
    [submitStar] rejects with [IncorrectTime] exactly when the elapsed time
    [c - t] is at least 300 or the second field does not parse as a
    positive integer [t].  In particular a submission with a valid
    signature 299 seconds after the embedded time is admitted, and one 300
    seconds after it or later is rejected with [IncorrectTime]. *)
Theorem submitStar_time_window self address message signature star
    now now_add c :
  List.length (JS.split ":" message) = 3%nat ->
  currentTime now = Some c ->
  299 <= c ->
  (snd (submitStar self address message signature star now now_add)
   = Rejected IncorrectTime
   <-> match messageTime message with
       | Some t => 300 <= c - t \/ t <= 0
       | None => True
       end)
  /\ (forall t,
        messageTime message = Some t ->
        0 < t -> c = t + 299 ->
        verify message address signature = true ->
        submitStar self address message signature star now now_add
        = _addBlock self (Block_new (StarData address message signature star))
            now_add
        /\ exists admitted,
             snd (submitStar self address message signature star now now_add)
             = Resolved admitted)
  /\ (forall t,
        messageTime message = Some t ->
        0 < t -> t + 300 <= c ->
        snd (submitStar self address message signature star now now_add)
        = Rejected IncorrectTime).
Proof.
  intros Hlen Hc Hclock.
  assert (Hrej : forall t,
             messageTime message = Some t ->
             300 <= c - t \/ t <= 0 ->
             snd (submitStar self address message signature star now now_add)
             = Rejected IncorrectTime).
  { intros t Ht Hout. rewrite submitStar_bad_time; trivial.
    apply not_true_is_false. intros Htest.
    apply time_test_true in Htest as (t' & c' & Ht' & Hc' & Hnz & Hwin).
    rewrite Ht in Ht'. rewrite Hc in Hc'.
    injection Ht' as <-. injection Hc' as <-. lia. }
  split; [|split].
  - split.
    + intros H.
      destruct (messageTime message)
        as [t|] eqn:Ht; [|exact I].
      destruct (Z_lt_le_dec (c - t) 300) as [Hin|Hout]; [|now left].
      destruct (Z_le_gt_dec t 0) as [Hneg|Hpos]; [now right|].
      exfalso. revert H.
      apply in_window_not_IncorrectTime; trivial.
      rewrite Ht. apply time_test_true. exists t, c.
      repeat split; trivial. lia.
    + destruct (messageTime message)
        as [t|] eqn:Ht.
      * intros Hout. now apply (Hrej t).
      * intros _. rewrite submitStar_bad_time; trivial.
        now rewrite Ht.
  - intros t Ht Hpos Hlate Hsig.
    rewrite submitStar_in_window.
    + rewrite Hsig. split; [reflexivity|]. apply addBlock_resolves.
    + exact Hlen.
    + rewrite Ht. apply time_test_true. exists t, c.
      repeat split; trivial; lia.
  - intros t Ht Hpos Hlate. apply (Hrej t Ht). left. lia.
Qed.

(** *** A challenge and its submission *)

(** X10.  The protocol end to end: a challenge issued for an address
    without a colon is admitted, with a valid signature, as long as fewer
    than 300 seconds have elapsed on the clock, and is rejected with
    [IncorrectTime] from 300 seconds on. *)
Lemma challenge_window self address message signature star
    issued now now_add :
  contains ":" address = false ->
  1000 <= issued <= now ->
  requestMessageOwnershipVerification address issued = Resolved message ->
  (now / 1000 - issued / 1000 < 300 ->
   verify message address signature = true ->
   submitStar self address message signature star now now_add
   = _addBlock self (Block_new (StarData address message signature star))
       now_add)
  /\ (300 <= now / 1000 - issued / 1000 ->
      submitStar self address message signature star now now_add
      = (self, Rejected IncorrectTime)).
Proof.
  intros Haddress [Hissued Hnow] Hmessage.
  destruct (challenge_fields address issued Haddress Hissued)
    as (message' & Hmessage' & Hsplit & Htime).
  rewrite Hmessage in Hmessage'. injection Hmessage' as <-.
  assert (Hlen : List.length (JS.split ":" message) = 3%nat)
    by now rewrite Hsplit.
  assert (Hclock : currentTime now = Some (now / 1000))
    by (apply currentTime_seconds; lia).
  assert (Hpos : 0 < issued / 1000)
    by (apply Z.div_str_pos; lia).
  split.
  - intros Hwin Hsig. rewrite submitStar_in_window; trivial.
    + now rewrite Hsig.
    + apply time_test_true. exists (issued / 1000), (now / 1000).
      repeat split; trivial. lia.
  - intros Hlate. apply submitStar_bad_time; trivial.
    apply not_true_is_false. intros Htest.
    apply time_test_true in Htest as (t & c & Ht & Hc & _ & Hwin).
    rewrite Htime in Ht. rewrite Hclock in Hc.
    injection Ht as <-. injection Hc as <-. lia.
Qed.

(** *** [_addBlock] *)

Lemma addBlock_genesis (self : Blockchain) (block : Block) (now : Z) :
  chain self = [] ->
  let b' :=
    set_hash (set_height (set_time block (seconds_string now)) 0)
      (Some (SHA256
               (JSON_stringify
                  (set_height (set_time block (seconds_string now)) 0)))) in
  _addBlock self block now
  = (mkBlockchain [b'] 0, Resolved (TheStore (mkBlockchain [b'] 0))).
Proof.
  intros Hnil. unfold _addBlock. now rewrite Hnil.
Qed.

Lemma addBlock_append (self : Blockchain) (block : Block) (now : Z) :
  chain self <> [] ->
  let linked :=
    set_height (link self (set_time block (seconds_string now)))
      (chain_height self + 1) in
  let b' := set_hash linked (Some (SHA256 (JSON_stringify linked))) in
  _addBlock self block now
  = (mkBlockchain (chain self ++ [b']) (chain_height self + 1),
     Resolved (TheBlock b')).
Proof.
  intros Hne. unfold _addBlock.
  destruct (chain self) as [|b0 rest]; [contradiction | reflexivity].
Qed.

(** What [link] leaves in [previousBlockHash]. *)
Lemma link_previousBlockHash (self : Blockchain) (block : Block) :
  previousBlockHash (link self block)
  = match find_tip self with
    | Some tip =>
        if JS.truthy_str (hash tip) then JS.Plain (hash tip)
        else previousBlockHash block
    | None => previousBlockHash block
    end.
Proof.
  unfold link. destruct (find_tip self) as [tip|]; trivial.
  now destruct (JS.truthy_str (hash tip)).
Qed.

Lemma link_other_fields (self : Blockchain) (block : Block) :
  hash (link self block) = hash block
  /\ body (link self block) = body block
  /\ time (link self block) = time block.
Proof.
  unfold link. destruct (find_tip self) as [tip|]; auto.
  destruct (JS.truthy_str (hash tip)); auto.
Qed.

(** The effect of [_addBlock] on any block: the block is appended with its
    time, height, previous hash and hash assigned as follows. *)
Lemma addBlock_effect (self : Blockchain) (block : Block) (now : Z) :
  exists b',
    chain (fst (_addBlock self block now)) = (chain self ++ [b'])%list
    /\ body b' = body block
    /\ time b' = seconds_string now
    /\ hash b' = Some (SHA256 (JSON_stringify (set_hash b' (hash block))))
    /\ (chain self = [] ->
        height b' = 0
        /\ previousBlockHash b' = previousBlockHash block
        /\ chain_height (fst (_addBlock self block now)) = 0
        /\ snd (_addBlock self block now)
           = Resolved (TheStore (fst (_addBlock self block now))))
    /\ (chain self <> [] ->
        height b' = chain_height self + 1
        /\ previousBlockHash b'
           = match find_tip self with
             | Some tip =>
                 if JS.truthy_str (hash tip) then JS.Plain (hash tip)
                 else previousBlockHash block
             | None => previousBlockHash block
             end
        /\ chain_height (fst (_addBlock self block now)) = chain_height self + 1
        /\ snd (_addBlock self block now) = Resolved (TheBlock b')).
Proof.
  assert (Hcases : chain self = [] \/ chain self <> []).
  { destruct (chain self); [now left | right; discriminate]. }
  destruct Hcases as [Hnil|Hne].
  - rewrite (addBlock_genesis self block now Hnil). simpl.
    eexists. split; [now rewrite Hnil|].
    destruct block as [h ht bd tm pv]; simpl.
    do 3 (split; [reflexivity|]). split.
    + intros _. now repeat split.
    + intros Hne. now contradiction Hne.
  - rewrite (addBlock_append self block now Hne). simpl.
    eexists. split; [reflexivity|].
    pose proof (link_other_fields self (set_time block (seconds_string now)))
      as (Hlh & Hlb & Hlt).
    pose proof (link_previousBlockHash self
                  (set_time block (seconds_string now))) as Hlp.
    simpl in Hlh, Hlb, Hlt, Hlp.
    split; [exact Hlb|]. split; [exact Hlt|]. split.
    { unfold set_hash, set_height; simpl. rewrite Hlh.
      destruct block; reflexivity. }
    split; [intros Hnil; now contradiction Hne|].
    intros _. simpl. now rewrite Hlp.
Qed.

(** *** The invariant of the chain store *)

(** When heights are positions (shifted by [k]), a search by height finds
    the block at that position. *)
Lemma find_by_height (l : list Block) :
  forall k : nat,
    (forall i b, nth_error l i = Some b -> height b = Z.of_nat (k + i)) ->
    forall i p, nth_error l i = Some p ->
      find (fun block => height block =? Z.of_nat (k + i)) l = Some p.
Proof.
  induction l as [|a l IH]; intros k Hpos i p Hnth.
  - destruct i; discriminate Hnth.
  - destruct i as [|j]; simpl in *.
    + injection Hnth as ->.
      rewrite (Hpos 0%nat p eq_refl), Z.eqb_refl. reflexivity.
    + rewrite (Hpos 0%nat a eq_refl).
      replace (Z.of_nat (k + 0) =? Z.of_nat (k + S j)) with false
        by (symmetry; apply Z.eqb_neq; lia).
      replace (k + S j)%nat with (S k + j)%nat by lia.
      apply IH; trivial.
      intros i b Hb. rewrite (Hpos (S i) b Hb). f_equal. lia.
Qed.

Lemma tip_is_last (self : Blockchain) (p : Block) (l : list Block) :
  store_invariant self ->
  chain self = (l ++ [p])%list ->
  find_tip self = Some p.
Proof.
  intros (Hpos & Hcount & _) Hchain. unfold find_tip.
  assert (Hnth : nth_error (chain self) (List.length l) = Some p).
  { rewrite Hchain, nth_error_app2, Nat.sub_diag by lia. reflexivity. }
  replace (chain_height self) with (Z.of_nat (0 + List.length l)).
  - apply find_by_height; trivial.
  - rewrite Hcount, Hchain, length_app. simpl. lia.
Qed.

Ltac split_invariant :=
  unfold store_invariant; split; [|split; [|split]].

Lemma invariant_empty :
  store_invariant empty_store /\ Forall hashed (chain empty_store).
Proof.
  split; [split_invariant|constructor]; simpl.
  - intros [|i] b H; discriminate H.
  - reflexivity.
  - intros g H. discriminate H.
  - intros i b p H. discriminate H.
Qed.

Section Digest.

(** The digest is never the empty string (a SHA-256 digest in hexadecimal
    has 64 characters). *)
Hypothesis SHA256_nonempty : forall s, SHA256 s <> "".

Lemma addBlock_hashed (self : Blockchain) (block : Block) (now : Z) :
  Forall hashed (chain self) ->
  Forall hashed (chain (fst (_addBlock self block now))).
Proof.
  intros Hall. unfold _addBlock.
  destruct (chain self) as [|b0 rest] eqn:Hchain; simpl.
  - constructor; [|constructor]. unfold hashed. simpl.
    rewrite negb_true_iff. apply String.eqb_neq, SHA256_nonempty.
  - constructor; [now inversion Hall|].
    apply Forall_app. split; [now inversion Hall|].
    constructor; [|constructor]. unfold hashed. simpl.
    rewrite negb_true_iff. apply String.eqb_neq, SHA256_nonempty.
Qed.

Lemma addBlock_invariant (self : Blockchain) (block : Block) (now : Z) :
  store_invariant self ->
  Forall hashed (chain self) ->
  (chain self = [] -> payload_only block) ->
  store_invariant (fst (_addBlock self block now)).
Proof.
  intros Hinv Hall Hfresh.
  destruct (addBlock_effect self block now)
    as (b' & Hchain' & _ & _ & _ & Hgen & Happ).
  destruct Hinv as (Hpos & Hcount & Hgenesis & Hlinks).
  destruct (chain self) as [|b0 rest] eqn:Hchain.
  - destruct (Hgen eq_refl) as (Hh & Hp & Hc & _).
    split_invariant; rewrite ?Hchain', ?Hc; simpl.
    + intros [|i] b H; simpl in H.
      * injection H as <-. exact Hh.
      * destruct i; discriminate H.
    + reflexivity.
    + intros g H. injection H as <-. split; [exact Hh|].
      destruct (Hfresh eq_refl) as [_ Hunlinked]. congruence.
    + intros i b p H. destruct i; discriminate H.
  - assert (Hne : b0 :: rest <> []) by discriminate.
    destruct (Happ Hne) as (Hh & Hlink & Hc & _).
    destruct (exists_last Hne) as (l & p & Hlast).
    assert (Hinv : store_invariant self).
    { split_invariant; rewrite ?Hchain; trivial. }
    assert (Htip : find_tip self = Some p).
    { apply (tip_is_last self p l Hinv). now rewrite Hchain. }
    assert (Hp : hashed p).
    { rewrite Hlast in Hall. apply Forall_app in Hall as [_ Hall].
      now inversion Hall. }
    rewrite Htip, Hp in Hlink.
    assert (Hlen : List.length (b0 :: rest) = S (List.length l)).
    { rewrite Hlast, length_app. simpl. lia. }
    split_invariant; rewrite ?Hchain', ?Hc, ?Hcount.
    + intros i b Hb.
      destruct (Nat.lt_ge_cases i (List.length (b0 :: rest))) as [Hlt|Hge].
      * rewrite nth_error_app1 in Hb by exact Hlt. now apply Hpos.
      * rewrite nth_error_app2 in Hb by exact Hge.
        destruct (i - List.length (b0 :: rest))%nat as [|j] eqn:Hi;
          [|destruct j; discriminate Hb].
        injection Hb as <-. rewrite Hh, Hcount. lia.
    + rewrite length_app. simpl List.length. lia.
    + intros g H. simpl in H. injection H as <-. now apply (Hgenesis b0).
    + intros i b q Hb Hq.
      destruct (Nat.lt_ge_cases (S i) (List.length (b0 :: rest))) as [Hlt|Hge].
      * rewrite nth_error_app1 in Hb by exact Hlt.
        rewrite nth_error_app1 in Hq by lia.
        now apply (Hlinks i).
      * rewrite nth_error_app2 in Hb by exact Hge.
        destruct (S i - List.length (b0 :: rest))%nat as [|j] eqn:Hi;
          [|destruct j; discriminate Hb].
        injection Hb as <-.
        assert (Hil : i = List.length l) by lia.
        rewrite nth_error_app1 in Hq by lia.
        rewrite Hlast, Hil, nth_error_app2, Nat.sub_diag in Hq by lia.
        injection Hq as <-. exact Hlink.
Qed.

Lemma reachable_invariant (self : Blockchain) :
  reachable self ->
  store_invariant self /\ Forall hashed (chain self).
Proof.
  induction 1 as [|self block now Hreach [IHinv IHall] Hfresh].
  - apply invariant_empty.
  - split.
    + now apply addBlock_invariant.
    + now apply addBlock_hashed.
Qed.

(** C5.  Provided the digest is never the empty string, every store the
    class goes through, from the empty store of the constructor on, after
    the admission of the genesis block and after any number of further
    admissions by [_addBlock], satisfies [store_invariant]:
    [blocks[i].height = i] at every position, the store's height is the
    length of the chain minus one (so -1 for the empty chain), the genesis
    block has height 0 and no previous hash, and each later block records
    the hash of the block before it. *)
Theorem chain_store_invariant (self : Blockchain) :
  reachable self -> store_invariant self.
Proof.
  intros Hreach. now apply reachable_invariant.
Qed.

(** C1 (the code departs from the claim).  Take the chain made by the
    constructor and one admission.  Both blocks pass self-validation, the
    second has height 1, and its recorded previous hash, the hash of the
    genesis block, differs from the expectation carried forward from the
    genesis block's own [previousBlockHash] field, which is unset.  The
    validator worded as in the specification records a broken linkage
    there; [validateChain] records nothing and resolves with
    ['Chain is valid']. *)
Theorem validateChain_skips_linkage (now0 now1 : Z) (data : Payload Star) :
  exists genesis block1,
    chain (fst (_addBlock (constructor now0) (Block_new data) now1))
    = [genesis; block1]
    /\ validate genesis = true
    /\ validate block1 = true
    /\ height block1 = 1
    /\ previousBlockHash genesis = JS.Plain None
    /\ previousBlockHash block1 = JS.Plain (hash genesis)
    /\ previousBlockHash block1 <> previousBlockHash genesis
    /\ snd (validate_loop_spec [genesis; block1])
       = [BrokenLinkage (previousBlockHash genesis) block1]
    /\ snd (validateChain
              (fst (_addBlock (constructor now0) (Block_new data) now1)))
       = Resolved "Chain is valid".
Proof.
  pose (h0 := SHA256 (JSON_stringify
                        (mkBlock None 0 (encode GenesisData)
                           (seconds_string now0) (JS.Plain None)))).
  pose (genesis := mkBlock (Some h0) 0 (encode GenesisData)
                     (seconds_string now0) (JS.Plain None)).
  pose (h1 := SHA256 (JSON_stringify
                        (mkBlock None 1 (encode data) (seconds_string now1)
                           (JS.Plain (Some h0))))).
  pose (block1 := mkBlock (Some h1) 1 (encode data) (seconds_string now1)
                    (JS.Plain (Some h0))).
  assert (Hh0 : (h0 =? "")%string = false)
    by (apply String.eqb_neq, SHA256_nonempty).
  assert (Hstore0 : constructor now0 = mkBlockchain [genesis] 0)
    by reflexivity.
  assert (Hstore1 : fst (_addBlock (constructor now0) (Block_new data) now1)
                    = mkBlockchain [genesis; block1] 1).
  { rewrite Hstore0. unfold _addBlock, link, find_tip. simpl.
    fold h0. rewrite Hh0. reflexivity. }
  assert (Hv0 : validate genesis = true)
    by (unfold validate; simpl; apply String.eqb_refl).
  assert (Hv1 : validate block1 = true)
    by (unfold validate; simpl; apply String.eqb_refl).
  exists genesis, block1. rewrite Hstore1.
  split; [reflexivity|].
  split; [exact Hv0|]. split; [exact Hv1|].
  split; [reflexivity|]. split; [reflexivity|]. split; [reflexivity|].
  split; [discriminate|]. split.
  - unfold validate_loop_spec, validate_iteration_spec.
    cbn -[validate]. now rewrite Hv0, Hv1.
  - unfold validateChain, validate_loop, validate_iteration.
    cbn -[validate]. rewrite Hv0, Hv1. cbn.
    now rewrite String.eqb_refl.
Qed.

End Digest.

(** C4, as amended.  Given a block with only its payload populated,
    [_addBlock] on a non-empty chain appends the block with height
    [self.height + 1], with its hash computed over its other fields, and
    with [previousBlockHash] set to the hash of the first block whose
    height is [self.height] when that block exists and its hash is a
    non-empty string; when there is no such block, or its hash is unset or
    empty, the block is appended all the same, with no previous hash.  The
    store's height is increased by one and the promise resolves with the
    appended block.  On an empty chain the block gets height 0 and no
    previous hash, the store's height becomes 0, and the promise resolves
    with the store. *)
Theorem addBlock_contract (self : Blockchain) (block : Block) (now : Z) :
  payload_only block ->
  exists b',
    chain (fst (_addBlock self block now)) = (chain self ++ [b'])%list
    /\ body b' = body block
    /\ time b' = seconds_string now
    /\ hash b' = Some (SHA256 (JSON_stringify (set_hash b' None)))
    /\ (chain self = [] ->
        height b' = 0
        /\ previousBlockHash b' = JS.Plain None
        /\ chain_height (fst (_addBlock self block now)) = 0
        /\ snd (_addBlock self block now)
           = Resolved (TheStore (fst (_addBlock self block now))))
    /\ (chain self <> [] ->
        height b' = chain_height self + 1
        /\ chain_height (fst (_addBlock self block now)) = chain_height self + 1
        /\ snd (_addBlock self block now) = Resolved (TheBlock b')
        /\ (forall tip h,
              find_tip self = Some tip -> hash tip = Some h -> h <> "" ->
              previousBlockHash b' = JS.Plain (Some h))
        /\ (find_tip self = None -> previousBlockHash b' = JS.Plain None)
        /\ (forall tip,
              find_tip self = Some tip -> JS.truthy_str (hash tip) = false ->
              previousBlockHash b' = JS.Plain None)).
Proof.
  intros [Hhash Hprev].
  destruct (addBlock_effect self block now)
    as (b' & Hchain & Hbody & Htime & Hh & Hgen & Happ).
  exists b'. rewrite Hhash in Hh.
  do 4 (split; [assumption|]). split.
  - intros Hnil. destruct (Hgen Hnil) as (H1 & H2 & H3 & H4).
    rewrite Hprev in H2. now repeat split.
  - intros Hne. destruct (Happ Hne) as (H1 & H2 & H3 & H4).
    rewrite Hprev in H2.
    do 3 (split; [assumption|]). split; [|split].
    + intros tip h Htip Hth Hnonempty. rewrite H2, Htip.
      replace (JS.truthy_str (hash tip)) with true; [now rewrite Hth|].
      symmetry. apply truthy_str_true. now exists h.
    + intros Htip. now rewrite H2, Htip.
    + intros tip Htip Hfalsy. now rewrite H2, Htip, Hfalsy.
Qed.

(** *** [validateChain] *)

(** [NaN] is the only value of the field that is not strictly equal to
    itself. *)
Lemma strict_eq_field_self (p : JS.field) :
  JS.strict_eq_field p p = negb (JS.isNaN p).
Proof.
  destruct p as [v|]; simpl; [apply strict_eq_refl | reflexivity].
Qed.

Lemma isNaN_true (p : JS.field) : JS.isNaN p = true <-> p = JS.NaN.
Proof.
  destruct p; simpl; split; congruence.
Qed.

(** An iteration logs the block as tampered, or moves the variable
    [previousBlockHash] to the block's own field; the linkage test that
    follows compares that field with itself, so what is logged is
    [entries_for block] whatever the state. *)
Lemma validate_iteration_eq (st : LoopState) (block : Block) :
  validate_iteration st block
  = (if validate block then previousBlockHash block else fst st,
     (snd st ++ entries_for block)%list).
Proof.
  unfold validate_iteration, entries_for. destruct st as [prev errorLog].
  destruct (validate block); cbn -[Z.gtb]; trivial.
  rewrite strict_eq_field_self, negb_involutive.
  destruct ((height block >? 0) && JS.isNaN (previousBlockHash block))
    eqn:Htest.
  - apply andb_true_iff in Htest as [_ Hnan].
    apply isNaN_true in Hnan. now rewrite Hnan.
  - now rewrite app_nil_r.
Qed.

Lemma validate_loop_log (blocks : list Block) :
  forall st : LoopState,
    snd (fold_left validate_iteration blocks st)
    = (snd st ++ flat_map entries_for blocks)%list.
Proof.
  induction blocks as [|block blocks IH]; intros st; simpl.
  - now rewrite app_nil_r.
  - rewrite IH, validate_iteration_eq. simpl.
    now rewrite <- app_assoc.
Qed.

(** The promise of [validateChain] and the store it leaves, in one
    equation: the store is the one it was given, and the promise is
    rejected with the entries of the blocks, in chain order, when there
    are any. *)
Lemma validateChain_outcome (self : Blockchain) :
  validateChain self
  = (self,
     match flat_map entries_for (chain self) with
     | [] => Resolved "Chain is valid"
     | errorLog => Rejected errorLog
     end).
Proof.
  unfold validateChain, validate_loop. rewrite validate_loop_log. simpl.
  now destruct (flat_map entries_for (chain self)).
Qed.

Lemma broken_linkage_entries (blocks : list Block) :
  filter is_broken_linkage (flat_map entries_for blocks)
  = map (BrokenLinkage JS.NaN)
      (filter (fun b => validate b && (height b >? 0)
                        && JS.isNaN (previousBlockHash b))
         blocks).
Proof.
  induction blocks as [|b blocks IH]; simpl; trivial.
  rewrite filter_app, IH. unfold entries_for.
  destruct (validate b); simpl; trivial.
  destruct ((height b >? 0) && JS.isNaN (previousBlockHash b)); trivial.
Qed.

Lemma no_broken_linkage_without_NaN (blocks : list Block) :
  (forall b, In b blocks -> JS.isNaN (previousBlockHash b) = false) ->
  existsb is_broken_linkage (flat_map entries_for blocks) = false.
Proof.
  induction blocks as [|b blocks IH]; simpl; intros Hplain; trivial.
  rewrite existsb_app, IH by (intros x Hx; apply Hplain; now right).
  unfold entries_for. rewrite (Hplain b (or_introl eq_refl)), andb_false_r.
  now destruct (validate b).
Qed.

(** C2, as amended.  [validateChain] records a broken linkage for a block
    exactly when the block passes self-validation, has a height above 0
    and holds [NaN] in [previousBlockHash]: the test compares the field
    with the variable that was assigned that very field just before, and
    [NaN] is the one value not strictly equal to itself.  On a chain whose
    [previousBlockHash] fields are unset or strings, no entry of the error
    log is a broken linkage. *)
Theorem validateChain_broken_linkage_iff_NaN (self : Blockchain) :
  (forall block,
      JS.strict_eq_field (previousBlockHash block) (previousBlockHash block)
      = negb (JS.isNaN (previousBlockHash block)))
  /\ filter is_broken_linkage (snd (validate_loop (chain self)))
     = map (BrokenLinkage JS.NaN)
         (filter (fun b => validate b && (height b >? 0)
                           && JS.isNaN (previousBlockHash b))
            (chain self))
  /\ ((forall b, In b (chain self) ->
                 JS.isNaN (previousBlockHash b) = false) ->
      existsb is_broken_linkage (snd (validate_loop (chain self))) = false
      /\ match snd (validateChain self) with
         | Rejected errorLog => existsb is_broken_linkage errorLog = false
         | Resolved _ => True
         end).
Proof.
  split; [intros block; apply strict_eq_field_self|].
  unfold validate_loop. rewrite validate_loop_log. simpl. split.
  - apply broken_linkage_entries.
  - intros Hplain.
    pose proof (no_broken_linkage_without_NaN (chain self) Hplain) as Hnone.
    split; [exact Hnone|].
    rewrite validateChain_outcome. simpl.
    now destruct (flat_map entries_for (chain self)).
Qed.

(** *** [getStarsByWalletAddress] *)

Lemma reaction_app (address : string) (stars : list (StarEntry Star))
    (block : Block) :
  reaction address stars block = (stars ++ star_of address block)%list.
Proof.
  unfold star_of, reaction, on_data.
  destruct (getBData block) as [[data|]|reason];
    try (now rewrite app_nil_r).
  destruct (JS.strict_eq (data_address data) (Some address));
    [reflexivity | now rewrite app_nil_r].
Qed.

Lemma fold_reaction (address : string) (completion : list Block) :
  forall stars,
    fold_left (reaction address) completion stars
    = (stars ++ flat_map (star_of address) completion)%list.
Proof.
  induction completion as [|block completion IH]; intros stars; simpl.
  - now rewrite app_nil_r.
  - now rewrite IH, reaction_app, <- app_assoc.
Qed.

(** What a block contributes: its pair when its payload decodes to data
    whose address is the one asked for, nothing otherwise. *)
Lemma in_star_of (address : string) (block : Block) (e : StarEntry Star) :
  In e (star_of address block)
  <-> exists data,
        getBData block = Resolved (Some data)
        /\ data_address data = Some address
        /\ e = mkStarEntry (data_address data) (data_star data).
Proof.
  unfold star_of, reaction, on_data.
  destruct (getBData block) as [[data|]|reason]; simpl.
  - destruct (JS.strict_eq (data_address data) (Some address)) eqn:Heq; simpl.
    + apply strict_eq_true in Heq. split.
      * intros [<-|[]]. now exists data.
      * intros (d & [= <-] & _ & ->). now left.
    + split; [intros []|].
      intros (d & [= <-] & Hd & _).
      apply strict_eq_true in Hd. congruence.
  - split; [intros [] | intros (d & [=] & _)].
  - split; [intros [] | intros (d & [=] & _)].
Qed.

(** The array [getStarsByWalletAddress] resolves with holds, once all
    the decoding promises have settled and their reactions have run, in
    whatever order, exactly the pairs [{ owner, star }] of the blocks whose
    payload decodes to data with the address asked for: the same pairs
    with the same multiplicities as the scan in chain order, possibly
    none.  A block whose decoding promise is rejected, or resolves with no
    data, adds nothing to the array. *)
Lemma getStarsByWalletAddress_collects (self : Blockchain)
    (address : string) (completion : list Block) :
  Permutation completion (reactions (getStarsByWalletAddress self address)) ->
  Permutation
    (stars_after address (getStarsByWalletAddress self address) completion)
    (flat_map (star_of address) (chain self))
  /\ (forall e,
        In e (stars_after address (getStarsByWalletAddress self address)
                completion)
        <-> exists block data,
              In block (chain self)
              /\ getBData block = Resolved (Some data)
              /\ data_address data = Some address
              /\ e = mkStarEntry (data_address data) (data_star data))
  /\ stars_after address (getStarsByWalletAddress self address) (chain self)
     = flat_map (star_of address) (chain self).
Proof.
  intros Hperm. unfold stars_after. simpl in *.
  rewrite !fold_reaction. simpl.
  assert (Hflat : Permutation (flat_map (star_of address) completion)
                    (flat_map (star_of address) (chain self)))
    by now apply Permutation_flat_map.
  split; [exact Hflat|]. split; [|reflexivity].
  intros e. rewrite (Permutation_in' (eq_refl e) Hflat), in_flat_map.
  split.
  - intros (block & Hin & He). apply in_star_of in He as (data & Hd).
    now exists block, data.
  - intros (block & data & Hin & Hd). exists block. split; trivial.
    apply in_star_of. now exists data.
Qed.

(** *** The stores the public methods produce are reachable *)

Lemma Block_new_payload_only (data : Payload Star) :
  payload_only (Block_new data).
Proof.
  now split.
Qed.

Lemma constructor_reachable (now : Z) : reachable (constructor now).
Proof.
  unfold constructor, initializeChain.
  replace (chain_height empty_store =? -1) with true by reflexivity.
  apply reachable_addBlock;
    [constructor | intros _; apply Block_new_payload_only].
Qed.

Lemma submitStar_reachable self address message signature star now now_add :
  reachable self ->
  reachable (fst (submitStar self address message signature star now now_add)).
Proof.
  intros Hreach. unfold submitStar.
  destruct (List.length (JS.split ":" message) =? 3)%nat; trivial.
  destruct (in_window _ _); trivial.
  destruct (verify message address signature); simpl; trivial.
  apply reachable_addBlock;
    [exact Hreach | intros _; apply Block_new_payload_only].
Qed.

End Properties.

(** ** The theorems at work on the sample instance *)

Lemma sample_SHA256_nonempty :
  forall s, SHA256 (Collaborators := sample) s <> "".
Proof.
  intros s. simpl. unfold sample_SHA256. simpl. discriminate.
Qed.

Lemma sample_store_2_reachable : reachable (C := sample) sample_store_2.
Proof.
  unfold sample_store_2, sample_store_1, sample_store_0.
  do 2 apply submitStar_reachable. apply constructor_reachable.
Qed.

(** The scenario of the first submission: the challenge for [addr1] is
    signed and submitted ten seconds later; the promise resolves with the
    new block, which has height 1 and the hash of the genesis block as its
    previous hash. *)
Example first_submission :
  exists genesis block1,
    chain sample_store_0 = [genesis]
    /\ height genesis = 0
    /\ snd (submitStar (C := sample) sample_store_0 "addr1" sample_message_1
              ("signed:" ++ sample_message_1) "Vega"
              1700000010500 1700000010501)
       = Resolved (TheBlock block1)
    /\ chain sample_store_1 = [genesis; block1]
    /\ height block1 = 1
    /\ previousBlockHash block1 = JS.Plain (hash genesis).
Proof.
  do 2 eexists. repeat split; reflexivity.
Qed.

(** C8 on the sample: the second owner's in-window message with a forged
    signature. *)
Lemma submitStar_unverified_signature_witness :
  submitStar (C := sample) sample_store_1 "addr2" sample_message_2 "forged"
    "Deneb" 1700000399999 1700000400000
  = (sample_store_1, Rejected UnverifiedSignature).
Proof.
  apply (submitStar_unverified_signature (C := sample) sample_store_1 "addr2"
           sample_message_2 "forged" "Deneb" 1700000399999 1700000400000
           1700000100 1700000399).
  - reflexivity.
  - reflexivity.
  - lia.
  - reflexivity.
  - lia.
  - reflexivity.
Defined.

(** C10 on the sample: a time stamp in the year 2286. *)
Lemma submitStar_future_timestamp_witness :
  JS.sub (currentTime 1700000010500) (Some 9999999999)
  = Some (1700000010 - 9999999999)
  /\ 1700000010 - 9999999999 < 0
  /\ snd (submitStar (C := sample) sample_store_0 "addr1"
            "addr1:9999999999:starRegistry" "forged" "Vega"
            1700000010500 1700000010501)
     <> Rejected IncorrectTime.
Proof.
  apply (submitStar_future_timestamp (C := sample) sample_store_0 "addr1"
           "addr1:9999999999:starRegistry" "forged" "Vega"
           1700000010500 1700000010501 9999999999 1700000010).
  - reflexivity.
  - reflexivity.
  - lia.
  - reflexivity.
  - lia.
Defined.

(** C6 on the sample: the second submission, made 299 seconds after the
    time in its message. *)
Lemma submitStar_time_window_witness :
  submitStar (C := sample) sample_store_1 "addr2" sample_message_2
    ("signed:" ++ sample_message_2) "Deneb" 1700000399999 1700000400000
  = _addBlock (C := sample) sample_store_1
      (Block_new (C := sample)
         (StarData "addr2" sample_message_2 ("signed:" ++ sample_message_2)
            "Deneb"))
      1700000400000.
Proof.
  refine (proj1 (proj1 (proj2
            (submitStar_time_window (C := sample) sample_store_1 "addr2"
               sample_message_2 ("signed:" ++ sample_message_2) "Deneb"
               1700000399999 1700000400000 1700000399 _ _ _))
            1700000100 _ _ _ _)).
  - reflexivity.
  - reflexivity.
  - lia.
  - reflexivity.
  - lia.
  - lia.
  - reflexivity.
Defined.

(** C4, the claim as stated fails: the tip of [store_with_unhashed_tip] is
    found, its hash is the empty string, and the admitted block is not
    given that hash as its previous hash. *)
Lemma addBlock_unhashed_tip_counterexample :
  payload_only
    (Block_new (C := sample) (StarData "addr1" sample_message_1 "sig" "Vega"))
  /\ chain store_with_unhashed_tip <> []
  /\ find_tip store_with_unhashed_tip = Some unhashed_tip
  /\ exists b',
       snd (_addBlock (C := sample) store_with_unhashed_tip
              (Block_new (C := sample)
                 (StarData "addr1" sample_message_1 "sig" "Vega"))
              1700000010501)
       = Resolved (TheBlock b')
       /\ previousBlockHash b' = JS.Plain None
       /\ hash unhashed_tip = Some ""
       /\ previousBlockHash b' <> JS.Plain (hash unhashed_tip).
Proof.
  split; [now split|]. split; [discriminate|]. split; [reflexivity|].
  eexists. split; [reflexivity|]. simpl.
  split; [reflexivity|]. split; [reflexivity|]. discriminate.
Qed.

(** C4 as amended, on the sample: the first submission's block is linked
    to the genesis block. *)
Lemma addBlock_contract_witness :
  exists b',
    chain (fst (_addBlock (C := sample) sample_store_0
                  (Block_new (C := sample)
                     (StarData "addr1" sample_message_1 "sig" "Vega"))
                  1700000010501))
    = (chain sample_store_0 ++ [b'])%list
    /\ height b' = 1
    /\ previousBlockHash b'
       = JS.Plain (Some "#null;0;Genesis Block;1699999999;null").
Proof.
  destruct (addBlock_contract (C := sample) sample_store_0
              (Block_new (C := sample)
                 (StarData "addr1" sample_message_1 "sig" "Vega"))
              1700000010501 (conj eq_refl eq_refl))
    as (b' & Hchain & _ & _ & _ & _ & Happend).
  exists b'. split; [exact Hchain|].
  assert (Hne : chain sample_store_0 <> []) by discriminate.
  destruct (Happend Hne) as (Hheight & _ & _ & Hlink & _).
  split; [exact Hheight|].
  now apply (Hlink (mkBlock (Some "#null;0;Genesis Block;1699999999;null") 0
                      "Genesis Block" "1699999999" (JS.Plain None))).
Defined.

(** C5 on the sample: the store after construction and two submissions. *)
Lemma chain_store_invariant_witness : store_invariant sample_store_2.
Proof.
  exact (chain_store_invariant (C := sample) sample_SHA256_nonempty
           sample_store_2 sample_store_2_reachable).
Defined.

(** C1 on the sample. *)
Lemma validateChain_skips_linkage_witness :
  exists genesis block1,
    chain (fst (_addBlock (C := sample)
                  (constructor (C := sample) 1699999999000)
                  (Block_new (C := sample)
                     (StarData "addr1" sample_message_1 "sig" "Vega"))
                  1700000010501))
    = [genesis; block1]
    /\ validate (C := sample) genesis = true
    /\ validate (C := sample) block1 = true
    /\ height block1 = 1
    /\ previousBlockHash genesis = JS.Plain None
    /\ previousBlockHash block1 = JS.Plain (hash genesis)
    /\ previousBlockHash block1 <> previousBlockHash genesis
    /\ snd (validate_loop_spec (C := sample) [genesis; block1])
       = [BrokenLinkage (previousBlockHash genesis) block1]
    /\ snd (validateChain (C := sample)
              (fst (_addBlock (C := sample)
                      (constructor (C := sample) 1699999999000)
                      (Block_new (C := sample)
                         (StarData "addr1" sample_message_1 "sig" "Vega"))
                      1700000010501)))
       = Resolved "Chain is valid".
Proof.
  exact (validateChain_skips_linkage (C := sample) sample_SHA256_nonempty
           1699999999000 1700000010501
           (StarData "addr1" sample_message_1 "sig" "Vega")).
Defined.

(** C3 (the code departs from the claim).  On the store whose block at
    height 1 was tampered with, [validateChain] leaves the store as it is
    but settles its promise by rejecting it with the error log, which
    holds the tampered block. *)
Theorem validateChain_rejects_with_log :
  exists tampered,
    nth_error (chain sample_store_tampered) 1 = Some tampered
    /\ validate (C := sample) tampered = false
    /\ validateChain (C := sample) sample_store_tampered
       = (sample_store_tampered, Rejected [TamperedData tampered]).
Proof.
  eexists. split; [reflexivity|]. split; vm_compute; reflexivity.
Qed.

(** On the sample, with the decoding promises settling in reverse chain
    order. *)
Lemma getStarsByWalletAddress_collects_reversed :
  Permutation
    (stars_after (C := sample) "addr1"
       (getStarsByWalletAddress (C := sample) sample_store_2 "addr1")
       (rev (chain sample_store_2)))
    (flat_map (star_of (C := sample) "addr1") (chain sample_store_2)).
Proof.
  exact (proj1 (getStarsByWalletAddress_collects (C := sample)
                  sample_store_2 "addr1" (rev (chain sample_store_2))
                  (Permutation_sym (Permutation_rev (chain sample_store_2))))).
Defined.

(** ** Further properties: queries, construction, validation *)

Section Ledger.

Context `{C : Collaborators}.

(** *** Positions and the counter, for any digest *)

Lemma reachable_positions (self : Blockchain) :
  reachable self ->
  (forall i b, nth_error (chain self) i = Some b -> height b = Z.of_nat i)
  /\ chain_height self = Z.of_nat (List.length (chain self)) - 1.
Proof.
  induction 1 as [|self block now Hreach [IHpos IHcount] _].
  - split; [intros [|i] b H; discriminate H | reflexivity].
  - destruct (addBlock_effect self block now)
      as (b' & Hchain & _ & _ & _ & Hgen & Happ).
    assert (Hnew : height b' = Z.of_nat (List.length (chain self))
                   /\ chain_height (fst (_addBlock self block now))
                      = Z.of_nat (List.length (chain self))).
    { destruct (chain self) as [|b0 rest] eqn:Hself.
      - destruct (Hgen eq_refl) as (Hh & _ & Hc & _). now rewrite Hh, Hc.
      - assert (Hne : b0 :: rest <> []) by discriminate.
        destruct (Happ Hne) as (Hh & _ & Hc & _).
        rewrite Hh, Hc, IHcount. split; lia. }
    destruct Hnew as [Hh Hc]. rewrite Hchain, Hc. split.
    + intros i b Hb.
      destruct (Nat.lt_ge_cases i (List.length (chain self))) as [Hlt|Hge].
      * rewrite nth_error_app1 in Hb by exact Hlt. now apply IHpos.
      * rewrite nth_error_app2 in Hb by exact Hge.
        destruct (i - List.length (chain self))%nat as [|j] eqn:Hi;
          [|destruct j; discriminate Hb].
        injection Hb as <-. rewrite Hh. f_equal. lia.
    + rewrite length_app. simpl. lia.
Qed.

Lemma find_nothing {A : Type} (f : A -> bool) (l : list A) :
  (forall x, In x l -> f x = false) -> find f l = None.
Proof.
  induction l as [|a l IH]; simpl; intros H; trivial.
  rewrite (H a (or_introl eq_refl)). apply IH. intros x Hx. apply H. now right.
Qed.

(** X1.  On every store the class goes through, [getBlockByHeight]
    resolves, for a height between 0 and the height [getChainHeight]
    reports, with the block at that position of the chain, whose height is
    the one asked for; for any other height it rejects with
    ['Block Not Found!']. *)
Theorem getBlockByHeight_in_range (self : Blockchain) (h : Z) :
  reachable self ->
  exists top,
    getChainHeight self = Resolved top
    /\ (0 <= h <= top ->
        exists b,
          getBlockByHeight self h = Resolved b
          /\ nth_error (chain self) (Z.to_nat h) = Some b
          /\ height b = h)
    /\ (h < 0 \/ top < h ->
        getBlockByHeight self h = Rejected "Block Not Found!").
Proof.
  intros Hreach. destruct (reachable_positions self Hreach) as [Hpos Hcount].
  exists (chain_height self). split; [reflexivity|]. split.
  - intros Hrange.
    destruct (nth_error (chain self) (Z.to_nat h)) as [b|] eqn:Hnth.
    + exists b. unfold getBlockByHeight.
      pose proof (find_by_height (chain self) 0 Hpos (Z.to_nat h) b Hnth)
        as Hfind.
      simpl in Hfind. rewrite Z2Nat.id in Hfind by lia. rewrite Hfind.
      repeat split. rewrite (Hpos _ _ Hnth). lia.
    + apply nth_error_None in Hnth. lia.
  - intros Hout. unfold getBlockByHeight.
    rewrite find_nothing; trivial.
    intros b Hin. apply In_nth_error in Hin as [i Hi].
    assert (Hlt : (i < List.length (chain self))%nat)
      by (apply nth_error_Some; congruence).
    rewrite (Hpos i b Hi). apply Z.eqb_neq. lia.
Qed.

(** X2.  [getBlockByHash] leaves its promise pending when the chain is
    empty.  On a non-empty chain it always resolves and never rejects:
    with a block of the chain that has the hash asked for, or with
    [undefined] exactly when no block of the chain has that hash. *)
Theorem getBlockByHash_settles (self : Blockchain) (h : string) :
  (chain self = [] -> getBlockByHash self h = NeverSettles)
  /\ (chain self <> [] ->
      exists found,
        getBlockByHash self h = Settles (Resolved found)
        /\ (forall b, found = Some b -> In b (chain self) /\ hash b = Some h)
        /\ (found = None <->
            forall b, In b (chain self) -> hash b <> Some h)).
Proof.
  unfold getBlockByHash. split.
  - intros Hnil. now rewrite Hnil.
  - intros Hne.
    replace (0 <? List.length (chain self))%nat with true
      by (symmetry; apply Nat.ltb_lt; destruct (chain self);
          [contradiction | simpl; lia]).
    eexists. split; [reflexivity|]. split.
    + intros b Hfound. apply find_some in Hfound as [Hin Heq].
      split; [exact Hin | now apply strict_eq_true].
    + split.
      * intros Hnone b Hin Hb.
        pose proof (find_none _ _ Hnone b Hin) as Hfalse. simpl in Hfalse.
        rewrite Hb, strict_eq_refl in Hfalse. discriminate Hfalse.
      * intros Hall. apply find_nothing. intros b Hin.
        apply not_true_is_false. intros Heq.
        apply strict_eq_true in Heq. now apply (Hall b Hin).
Qed.

(** X3.  Admission followed by lookup: the block [_addBlock] has just
    appended to a non-empty chain carries a hash, and [getBlockByHash]
    with that hash resolves with that very block provided no earlier block
    of the chain has the same hash. *)
Theorem getBlockByHash_after_addBlock (self : Blockchain) (block b' : Block)
    (now : Z) :
  chain self <> [] ->
  snd (_addBlock self block now) = Resolved (TheBlock b') ->
  exists h,
    hash b' = Some h
    /\ ((forall old, In old (chain self) -> hash old <> Some h) ->
        getBlockByHash (fst (_addBlock self block now)) h
        = Settles (Resolved (Some b'))).
Proof.
  intros Hne Hres.
  destruct (addBlock_effect self block now)
    as (b & Hchain & _ & _ & Hhash & _ & Happ).
  destruct (Happ Hne) as (_ & _ & _ & Hres').
  rewrite Hres' in Hres. injection Hres as <-.
  destruct (hash b) as [h|] eqn:Hh; [clear Hhash | discriminate Hhash].
  exists h. split; [reflexivity|].
  unfold getBlockByHash. rewrite Hchain, length_app.
  replace (0 <? List.length (chain self) + List.length [b])%nat with true
    by (symmetry; apply Nat.ltb_lt; simpl; lia).
  intros Hfresh. do 2 f_equal. revert Hfresh.
  generalize (chain self) as olds.
  induction olds as [|old olds IH]; intros Hfresh; simpl.
  - now rewrite Hh, strict_eq_refl.
  - replace (JS.strict_eq (hash old) _) with false.
    + apply IH. intros x Hx. apply Hfresh. now right.
    + symmetry. apply not_true_is_false. intros Heq.
      apply strict_eq_true in Heq. apply (Hfresh old); [now left | exact Heq].
Qed.

(** *** Construction *)

(** X4.  The constructor leaves a chain of exactly one block, the genesis
    block: height 0, no previous hash, the encoded sentinel as body, the
    clock in seconds as time, and a hash that passes self-validation; the
    store's height is 0.  [initializeChain] adds that block once only: on
    any later store of the class it changes nothing. *)
Theorem constructor_makes_genesis_once (now : Z) :
  (exists genesis,
      constructor now = mkBlockchain [genesis] 0
      /\ height genesis = 0
      /\ previousBlockHash genesis = JS.Plain None
      /\ body genesis = encode GenesisData
      /\ time genesis = seconds_string now
      /\ validate genesis = true)
  /\ (forall self now',
         reachable self -> chain self <> [] ->
         initializeChain self now' = self).
Proof.
  split.
  - eexists. split; [reflexivity|]. repeat split.
    unfold validate. simpl. apply String.eqb_refl.
  - intros self now' Hreach Hne. unfold initializeChain.
    destruct (reachable_positions self Hreach) as [_ Hcount].
    replace (chain_height self =? -1) with false; trivial.
    symmetry. apply Z.eqb_neq. rewrite Hcount.
    destruct (chain self); [contradiction | simpl List.length; lia].
Qed.

(** *** Validation *)

(** A block for which an iteration logs nothing: it passes
    self-validation and, above height 0, does not hold [NaN] as its
    previous hash. *)
Lemma entries_for_nil (b : Block) :
  entries_for b = []
  <-> validate b = true
      /\ (height b >? 0) && JS.isNaN (previousBlockHash b) = false.
Proof.
  unfold entries_for. destruct (validate b).
  - destruct ((height b >? 0) && JS.isNaN (previousBlockHash b)).
    + split; [discriminate | intros [_ [=]]].
    + now split.
  - split; [discriminate | intros [[=] _]].
Qed.

Lemma no_entries (blocks : list Block) :
  flat_map entries_for blocks = []
  <-> forall b, In b blocks -> entries_for b = [].
Proof.
  induction blocks as [|a blocks IH]; simpl.
  - split; [intros _ b [] | reflexivity].
  - split.
    + intros H. apply app_eq_nil in H as [Ha Hrest].
      intros b [<-|Hin]; [exact Ha | now apply IH].
    + intros H. rewrite (H a (or_introl eq_refl)). simpl.
      apply IH. intros b Hin. apply H. now right.
Qed.

Lemma entries_without_NaN (blocks : list Block) :
  (forall b, In b blocks -> previousBlockHash b <> JS.NaN) ->
  flat_map entries_for blocks
  = map TamperedData (filter (fun b => negb (validate b)) blocks).
Proof.
  induction blocks as [|a blocks IH]; simpl; intros Hplain; trivial.
  rewrite IH by (intros b Hb; apply Hplain; now right).
  assert (Ha : JS.isNaN (previousBlockHash a) = false).
  { apply not_true_is_false. intros Hnan. apply isNaN_true in Hnan.
    now apply (Hplain a (or_introl eq_refl)). }
  unfold entries_for. rewrite Ha, andb_false_r.
  now destruct (validate a).
Qed.

Lemma addBlock_keeps_clean (self : Blockchain) (block : Block) (now : Z) :
  payload_only block ->
  Forall (fun b => entries_for b = []) (chain self) ->
  Forall (fun b => entries_for b = [])
    (chain (fst (_addBlock self block now))).
Proof.
  intros [Hblock Hprev] Hall.
  destruct (addBlock_effect self block now)
    as (b' & Hchain & _ & _ & Hhash & Hgen & Happ).
  rewrite Hchain. apply Forall_app. split; [exact Hall|].
  constructor; [|constructor].
  apply entries_for_nil. split.
  - unfold validate. apply strict_eq_true. now rewrite Hblock in Hhash.
  - assert (Hplain : JS.isNaN (previousBlockHash b') = false).
    { destruct (chain self) as [|b0 rest] eqn:Hself.
      - destruct (Hgen eq_refl) as (_ & -> & _). now rewrite Hprev.
      - assert (Hne : b0 :: rest <> []) by discriminate.
        destruct (Happ Hne) as (_ & -> & _). rewrite Hprev.
        destruct (find_tip self) as [tip|]; trivial.
        now destruct (JS.truthy_str (hash tip)). }
    now rewrite Hplain, andb_false_r.
Qed.

Lemma built_clean (self : Blockchain) :
  built self -> Forall (fun b => entries_for b = []) (chain self).
Proof.
  induction 1 as [now|self address message signature star now now_add _ IH].
  - unfold constructor, initializeChain.
    replace (chain_height empty_store =? -1) with true by reflexivity.
    apply addBlock_keeps_clean; [apply Block_new_payload_only | constructor].
  - unfold submitStar.
    destruct (List.length (JS.split ":" message) =? 3)%nat; trivial.
    destruct (in_window _ _); trivial.
    destruct (verify message address signature); simpl; trivial.
    apply addBlock_keeps_clean; [apply Block_new_payload_only | exact IH].
Qed.

(** X5.  A chain built through the class alone, by the constructor and any
    number of calls of [submitStar], accepted or not, always validates:
    [validateChain] resolves with ['Chain is valid']. *)
Theorem validateChain_accepts_built_chain (self : Blockchain) :
  built self ->
  validateChain self = (self, Resolved "Chain is valid").
Proof.
  intros Hbuilt. rewrite validateChain_outcome.
  replace (flat_map entries_for (chain self)) with (@nil Discrepancy);
    trivial.
  symmetry. apply no_entries.
  apply Forall_forall. now apply built_clean.
Qed.

(** X6.  [validateChain] resolves with ['Chain is valid'] exactly when
    every block of the chain passes self-validation and none of them,
    above height 0, holds [NaN] as its previous hash.  Otherwise it
    rejects with a non-empty log that holds, in chain order, one entry
    for each offending block: a tampered entry for a block failing
    self-validation, a linkage entry for a block passing it with [NaN] as
    previous hash.  On a chain without [NaN] the log is one tampered
    entry per failing block.  Either way the store is the one it was
    given. *)
Theorem validateChain_rejects_iff_discrepancy (self : Blockchain) :
  (snd (validateChain self) = Resolved "Chain is valid"
   <-> forall b, In b (chain self) ->
         validate b = true
         /\ (0 < height b -> previousBlockHash b <> JS.NaN))
  /\ (forall errorLog,
         snd (validateChain self) = Rejected errorLog ->
         errorLog = flat_map entries_for (chain self) /\ errorLog <> [])
  /\ ((forall b, In b (chain self) -> previousBlockHash b <> JS.NaN) ->
      forall errorLog,
        snd (validateChain self) = Rejected errorLog ->
        errorLog
        = map TamperedData (filter (fun b => negb (validate b)) (chain self)))
  /\ fst (validateChain self) = self.
Proof.
  rewrite validateChain_outcome. simpl.
  assert (Hclean : flat_map entries_for (chain self) = []
                   <-> forall b, In b (chain self) ->
                         validate b = true
                         /\ (0 < height b -> previousBlockHash b <> JS.NaN)).
  { rewrite no_entries. split; intros H b Hin.
    - destruct (proj1 (entries_for_nil b) (H b Hin)) as [Hvalid Htest].
      split; [exact Hvalid|]. intros Hpos Hnan.
      rewrite Hnan in Htest. simpl in Htest.
      apply andb_false_iff in Htest as [Hh|[=]].
      rewrite Z.gtb_ltb in Hh. apply Z.ltb_ge in Hh. lia.
    - destruct (H b Hin) as [Hvalid Hlink].
      apply entries_for_nil. split; [exact Hvalid|].
      destruct (height b >? 0) eqn:Hh; trivial. simpl.
      apply not_true_is_false. intros Hnan. apply isNaN_true in Hnan.
      apply Hlink; [|exact Hnan]. apply Z.gtb_lt in Hh. lia. }
  split; [|split; [|split; [|reflexivity]]].
  - rewrite <- Hclean.
    destruct (flat_map entries_for (chain self)); split;
      trivial; discriminate.
  - intros errorLog.
    destruct (flat_map entries_for (chain self)) as [|e es];
      [discriminate|].
    intros [= <-]. split; [reflexivity | discriminate].
  - intros Hplain errorLog. rewrite <- (entries_without_NaN _ Hplain).
    destruct (flat_map entries_for (chain self)); [discriminate|].
    now intros [= <-].
Qed.

(** X7.  Tampering is pinpointed: when one block of a chain fails
    self-validation while all the other blocks pass it and none of them
    holds [NaN] as its previous hash, [validateChain] rejects with a log
    of exactly one entry, which references that block. *)
Theorem validateChain_pinpoints_tampering (before after : list Block)
    (tampered : Block) (h : Z) :
  (forall b, In b (before ++ after)%list ->
             validate b = true /\ previousBlockHash b <> JS.NaN) ->
  validate tampered = false ->
  validateChain (mkBlockchain (before ++ tampered :: after) h)
  = (mkBlockchain (before ++ tampered :: after) h,
     Rejected [TamperedData tampered]).
Proof.
  intros Hvalid Htampered. rewrite validateChain_outcome. simpl chain.
  assert (Hclean : forall l,
             (forall b, In b l -> In b (before ++ after)%list) ->
             flat_map entries_for l = []).
  { intros l Hsub. apply no_entries. intros b Hb.
    destruct (Hvalid b (Hsub b Hb)) as [Hv Hplain].
    apply entries_for_nil. split; [exact Hv|].
    replace (JS.isNaN (previousBlockHash b)) with false;
      [apply andb_false_r|].
    symmetry. apply not_true_is_false. intros Hnan.
    now apply Hplain, isNaN_true. }
  rewrite flat_map_app. simpl.
  rewrite (Hclean before) by (intros b Hb; apply in_or_app; now left).
  rewrite (Hclean after) by (intros b Hb; apply in_or_app; now right).
  unfold entries_for. now rewrite Htampered.
Qed.

(** X8.  What validation does not see: since only self-validation counts,
    a chain made of blocks taken from a chain that validates, in any
    order, with blocks left out or repeated and with any height counter,
    validates as well.  Removing or reordering blocks goes unnoticed. *)
Theorem validateChain_blind_to_removal (self : Blockchain)
    (blocks : list Block) (h : Z) :
  snd (validateChain self) = Resolved "Chain is valid" ->
  (forall b, In b blocks -> In b (chain self)) ->
  snd (validateChain (mkBlockchain blocks h)) = Resolved "Chain is valid".
Proof.
  rewrite !validateChain_outcome. simpl. intros Hvalid Hsub.
  assert (Hall : forall b, In b (chain self) -> entries_for b = []).
  { apply no_entries.
    destruct (flat_map entries_for (chain self));
      [reflexivity | discriminate Hvalid]. }
  replace (flat_map entries_for blocks) with (@nil Discrepancy); trivial.
  symmetry. apply no_entries. intros b Hb. apply Hall, Hsub, Hb.
Qed.

(** *** The challenge, the clock and the submission *)

Lemma split_nonempty (sep : ascii) (s : string) :
  (1 <= List.length (JS.split sep s))%nat.
Proof.
  induction s as [|c s IH]; simpl; [lia|].
  destruct (Ascii.eqb c sep); simpl; [lia|].
  destruct (JS.split sep s); simpl in *; lia.
Qed.

Lemma split_length_cons (sep c : ascii) (s : string) :
  List.length (JS.split sep (String c s))
  = ((if Ascii.eqb c sep then 1 else 0) + List.length (JS.split sep s))%nat.
Proof.
  pose proof (split_nonempty sep s) as Hs. simpl.
  destruct (Ascii.eqb c sep); simpl; trivial.
  destruct (JS.split sep s); simpl in *; lia.
Qed.

Lemma split_length_app (sep : ascii) (s rest : string) :
  List.length (JS.split sep (s ++ String sep rest))
  = (List.length (JS.split sep s) + List.length (JS.split sep rest))%nat.
Proof.
  induction s as [|c s IH].
  - simpl. now rewrite Ascii.eqb_refl.
  - change (String c s ++ String sep rest)
      with (String c (s ++ String sep rest)).
    rewrite !split_length_cons, IH. lia.
Qed.

Lemma split_length_separator (sep : ascii) (s : string) :
  contains sep s = true -> (2 <= List.length (JS.split sep s))%nat.
Proof.
  induction s as [|c s IH]; [discriminate|].
  intros H. rewrite split_length_cons. simpl in H.
  pose proof (split_nonempty sep s).
  destruct (Ascii.eqb c sep); simpl in *; [lia | auto].
Qed.

(** X9.  A challenge issued for an address that contains a colon can
    never be redeemed: the message has more than three fields, so
    [submitStar] rejects it with [IncorrectMessageFormat] whatever the
    signature, the submitting address and the time. *)
Theorem challenge_with_colon_rejected self address submitter message
    signature star issued now now_add :
  contains ":" address = true ->
  requestMessageOwnershipVerification address issued = Resolved message ->
  submitStar self submitter message signature star now now_add
  = (self, Rejected IncorrectMessageFormat).
Proof.
  intros Hcolon [= <-]. apply submitStar_bad_format.
  change (":" ++ seconds_string issued ++ ":starRegistry")
    with (String ":" (seconds_string issued ++ String ":" "starRegistry")).
  rewrite !split_length_app.
  pose proof (split_length_separator ":" address Hcolon).
  pose proof (split_nonempty ":" (seconds_string issued)).
  pose proof (split_nonempty ":" "starRegistry").
  lia.
Qed.

Lemma seconds_string_first_second (now : Z) :
  0 <= now < 1000 -> seconds_string now = "".
Proof.
  intros Hnow.
  assert (Hall : forallb (fun n => String.eqb (seconds_string (Z.of_nat n)) "")
                   (seq 0 1000) = true)
    by (vm_compute; reflexivity).
  rewrite forallb_forall in Hall.
  specialize (Hall (Z.to_nat now)).
  rewrite Z2Nat.id in Hall by lia.
  apply String.eqb_eq, Hall, in_seq. lia.
Qed.

(** X11.  Within the first second of 1970 the clock in seconds has no
    digits and reads as [NaN]: every submission of a three-field message
    is then rejected with [IncorrectTime], whatever its time stamp and
    signature. *)
Theorem submitStar_clock_without_seconds self address message signature
    star now now_add :
  0 <= now < 1000 ->
  List.length (JS.split ":" message) = 3%nat ->
  currentTime now = None
  /\ submitStar self address message signature star now now_add
     = (self, Rejected IncorrectTime).
Proof.
  intros Hnow Hlen.
  assert (Hclock : currentTime now = None).
  { unfold currentTime. now rewrite seconds_string_first_second. }
  split; [exact Hclock|].
  apply submitStar_bad_time; trivial.
  unfold in_window. rewrite Hclock.
  destruct (messageTime message); simpl; [apply andb_false_r | reflexivity].
Qed.

(** X12.  From the first second of 1970 on, the time [_addBlock] writes
    into the block it appends reads back, with [parseInt], as the clock
    in whole seconds. *)
Theorem addBlock_time_in_seconds (self : Blockchain) (block : Block)
    (now : Z) :
  1000 <= now ->
  exists b',
    chain (fst (_addBlock self block now)) = (chain self ++ [b'])%list
    /\ JS.parseInt (time b') = Some (now / 1000).
Proof.
  intros Hnow.
  destruct (addBlock_effect self block now) as (b' & Hchain & _ & Htime & _).
  exists b'. split; [exact Hchain|].
  rewrite Htime. now apply currentTime_seconds.
Qed.

Lemma submitStar_resolved self address message signature star now now_add v :
  snd (submitStar self address message signature star now now_add)
  = Resolved v ->
  List.length (JS.split ":" message) = 3%nat
  /\ in_window (messageTime message) (currentTime now) = true
  /\ verify message address signature = true
  /\ submitStar self address message signature star now now_add
     = _addBlock self (Block_new (StarData address message signature star))
         now_add.
Proof.
  unfold submitStar.
  destruct (List.length (JS.split ":" message) =? 3)%nat eqn:Hlen;
    [|discriminate].
  destruct (in_window _ _); [|discriminate].
  destruct (verify message address signature); [|discriminate].
  intros _. apply Nat.eqb_eq in Hlen. now repeat split.
Qed.

(** X13.  The effect of [submitStar] on the store.  When the promise is
    rejected, with one of the three reasons, the store is unchanged.  When
    it resolves, the message has three fields, the time test passed and
    the signature verified, and the chain is the old chain followed by
    exactly one block, whose body encodes the submitted address, message,
    signature and star and whose hash passes self-validation. *)
Theorem submitStar_store_effect self address message signature star
    now now_add :
  match snd (submitStar self address message signature star now now_add) with
  | Rejected reason =>
      fst (submitStar self address message signature star now now_add) = self
      /\ (reason = IncorrectMessageFormat \/ reason = IncorrectTime
          \/ reason = UnverifiedSignature)
  | Resolved _ =>
      List.length (JS.split ":" message) = 3%nat
      /\ in_window (messageTime message) (currentTime now) = true
      /\ verify message address signature = true
      /\ exists b,
           chain (fst (submitStar self address message signature star
                         now now_add))
           = (chain self ++ [b])%list
           /\ body b = encode (StarData address message signature star)
           /\ validate b = true
  end.
Proof.
  destruct (snd (submitStar self address message signature star now now_add))
    as [v|reason] eqn:Hres.
  - destruct (submitStar_resolved _ _ _ _ _ _ _ _ Hres)
      as (Hlen & Hwin & Hsig & Heq).
    do 3 (split; [assumption|]). rewrite Heq.
    destruct (addBlock_effect self
                (Block_new (StarData address message signature star)) now_add)
      as (b & Hchain & Hbody & _ & Hhash & _).
    exists b. split; [exact Hchain|]. split; [exact Hbody|].
    unfold validate. now apply strict_eq_true.
  - revert Hres. unfold submitStar.
    destruct (List.length (JS.split ":" message) =? 3)%nat;
      [|intros [= <-]; auto].
    destruct (in_window _ _); [|intros [= <-]; auto].
    destruct (verify message address signature); [|intros [= <-]; auto].
    simpl. intros Hres.
    destruct (addBlock_resolves self
                (Block_new (StarData address message signature star)) now_add)
      as [v Hv].
    rewrite Hv in Hres. discriminate Hres.
Qed.

(** X15.  Submission followed by the query.  When [submitStar] resolves
    with a block whose payload decodes to the submitter's address, the
    scan of the new chain returns, for that address, what the scan of the
    old chain returned followed by the new pair [{ owner, star }], and for
    every other address exactly what it returned before. *)
Theorem getStars_after_submitStar self address message signature star
    now now_add b data other :
  snd (submitStar self address message signature star now now_add)
  = Resolved (TheBlock b) ->
  getBData b = Resolved (Some data) ->
  data_address data = Some address ->
  stars_after other
    (getStarsByWalletAddress
       (fst (submitStar self address message signature star now now_add))
       other)
    (chain (fst (submitStar self address message signature star now now_add)))
  = (stars_after other (getStarsByWalletAddress self other) (chain self)
     ++ (if String.eqb address other
         then [mkStarEntry (Some address) (data_star data)]
         else []))%list.
Proof.
  intros Hres Hdata Haddress.
  destruct (submitStar_resolved _ _ _ _ _ _ _ _ Hres) as (_ & _ & _ & Heq).
  rewrite Heq in *.
  destruct (addBlock_effect self
              (Block_new (StarData address message signature star)) now_add)
    as (b' & Hchain & _ & _ & _ & Hgen & Happ).
  assert (Hb : b' = b).
  { destruct (chain self) as [|b0 rest] eqn:Hself.
    - destruct (Hgen eq_refl) as (_ & _ & _ & Hstore).
      rewrite Hstore in Hres. discriminate Hres.
    - assert (Hne : b0 :: rest <> []) by discriminate.
      destruct (Happ Hne) as (_ & _ & _ & Hblock).
      rewrite Hblock in Hres. now injection Hres. }
  subst b'. unfold stars_after. simpl. rewrite Hchain, !fold_reaction.
  simpl. rewrite flat_map_app. simpl. rewrite app_nil_r. f_equal.
  unfold star_of, reaction, on_data. rewrite Hdata, Haddress. simpl.
  reflexivity.
Qed.

Section LedgerDigest.

Hypothesis SHA256_nonempty : forall s, SHA256 s <> "".

(** X14.  Provided the digest is never the empty string: when
    [submitStar] resolves on a non-empty store of the class, it resolves
    with the new block; that block records the hash of the block that was
    last in the chain, its height is one more than that block's, and
    afterwards [getChainHeight] reports its height and
    [getBlockByHeight], asked for that height, returns it. *)
Theorem submitStar_links_to_tip self address message signature star
    now now_add v :
  reachable self ->
  chain self <> [] ->
  snd (submitStar self address message signature star now now_add)
  = Resolved v ->
  exists b tip,
    v = TheBlock b
    /\ nth_error (chain self) (List.length (chain self) - 1) = Some tip
    /\ previousBlockHash b = JS.Plain (hash tip)
    /\ height b = height tip + 1
    /\ getChainHeight
         (fst (submitStar self address message signature star now now_add))
       = Resolved (height b)
    /\ getBlockByHeight
         (fst (submitStar self address message signature star now now_add))
         (height b)
       = Resolved b.
Proof.
  intros Hreach Hne Hres.
  destruct (submitStar_resolved _ _ _ _ _ _ _ _ Hres) as (_ & _ & _ & Heq).
  rewrite Heq in *.
  set (block := Block_new (StarData address message signature star)) in *.
  destruct (addBlock_effect self block now_add)
    as (b & Hchain & _ & _ & _ & _ & Happ).
  destruct (Happ Hne) as (Hheight & Hlink & Hcount & Hblock).
  rewrite Hblock in Hres. injection Hres as <-.
  destruct (reachable_invariant SHA256_nonempty self Hreach) as [Hinv Hall].
  destruct (exists_last Hne) as (l & tip & Hlast).
  assert (Htip : find_tip self = Some tip)
    by (apply (tip_is_last self tip l Hinv); exact Hlast).
  assert (Hhashed : hashed tip).
  { rewrite Hlast in Hall. apply Forall_app in Hall as [_ Hall].
    now inversion Hall. }
  rewrite Htip, Hhashed in Hlink.
  destruct Hinv as (Hpos & Hself & _).
  assert (Hnth : nth_error (chain self) (List.length (chain self) - 1)
                 = Some tip).
  { rewrite Hlast, length_app. simpl.
    rewrite nth_error_app2 by lia.
    replace (List.length l + 1 - 1 - List.length l)%nat with 0%nat by lia.
    reflexivity. }
  assert (Htop : height tip = chain_height self).
  { rewrite (Hpos _ _ Hnth), Hself.
    destruct (chain self); [contradiction | simpl List.length; lia]. }
  exists b, tip. split; [reflexivity|]. split; [exact Hnth|].
  split; [exact Hlink|]. split; [lia|]. split.
  - unfold getChainHeight. now rewrite Hcount, Hheight.
  - assert (Hreach' : reachable (fst (_addBlock self block now_add))).
    { apply reachable_addBlock; [exact Hreach | now intros Hnil]. }
    destruct (reachable_positions _ Hreach') as [Hpos' _].
    assert (Hnth' : nth_error (chain (fst (_addBlock self block now_add)))
                      (List.length (chain self)) = Some b).
    { rewrite Hchain, nth_error_app2, Nat.sub_diag by lia. reflexivity. }
    unfold getBlockByHeight.
    pose proof (find_by_height _ 0 Hpos' _ _ Hnth') as Hfind.
    simpl in Hfind. rewrite <- (Hpos' _ _ Hnth') in Hfind.
    now rewrite Hfind.
Qed.

End LedgerDigest.

(** *** What the submission does not check *)

(** X16.  Only the number of fields, the second field and the signature
    count: a message [owner:seconds:tag] with any colon-free first and
    third field, whose second field is the clock in seconds at some
    instant less than 300 seconds before now, or after now, is admitted as
    soon as its signature verifies.  Neither the first field nor the tag
    [starRegistry] is compared with anything. *)
Theorem submitStar_ignores_owner_and_tag self address owner tag signature
    star issued now now_add :
  contains ":" owner = false ->
  contains ":" tag = false ->
  1000 <= issued ->
  1000 <= now ->
  now / 1000 - issued / 1000 < 300 ->
  verify (owner ++ ":" ++ seconds_string issued ++ ":" ++ tag) address
    signature = true ->
  submitStar self address
    (owner ++ ":" ++ seconds_string issued ++ ":" ++ tag) signature star
    now now_add
  = _addBlock self
      (Block_new
         (StarData address
            (owner ++ ":" ++ seconds_string issued ++ ":" ++ tag)
            signature star))
      now_add.
Proof.
  intros Howner Htag Hissued Hnow Hwin Hsig.
  destruct (seconds_string_digits issued Hissued)
    as (Hdigits & Hnonempty & Hvalue).
  set (message := owner ++ ":" ++ seconds_string issued ++ ":" ++ tag) in *.
  assert (Hsplit : JS.split ":" message
                   = [owner; seconds_string issued; tag]).
  { unfold message.
    change (":" ++ seconds_string issued ++ ":" ++ tag)
      with (String ":" (seconds_string issued ++ String ":" tag)).
    rewrite split_first_field by exact Howner.
    rewrite split_first_field by now apply digits_without_colon.
    now rewrite split_without_separator. }
  assert (Htime : messageTime message = Some (issued / 1000)).
  { unfold messageTime. rewrite Hsplit. simpl.
    rewrite parseInt_digits by assumption. now rewrite Hvalue. }
  assert (Hpos : 0 < issued / 1000) by (apply Z.div_str_pos; lia).
  rewrite submitStar_in_window.
  - now rewrite Hsig.
  - now rewrite Hsplit.
  - apply time_test_true. exists (issued / 1000), (now / 1000).
    repeat split; trivial; [now apply currentTime_seconds | lia].
Qed.

(** X17.  No protection against replay: a submission that was admitted is
    admitted again when it is repeated at the same clock reading on the
    store it produced, so that the chain ends with two blocks of the same
    body. *)
Theorem submitStar_accepts_replay self address message signature star
    now now_add now_add' v :
  snd (submitStar self address message signature star now now_add)
  = Resolved v ->
  exists b1 b2,
    chain (fst (submitStar
                  (fst (submitStar self address message signature star
                          now now_add))
                  address message signature star now now_add'))
    = (chain self ++ [b1; b2])%list
    /\ body b1 = encode (StarData address message signature star)
    /\ body b2 = body b1.
Proof.
  intros Hres.
  destruct (submitStar_resolved _ _ _ _ _ _ _ _ Hres)
    as (Hlen & Hwin & Hsig & Heq).
  rewrite Heq.
  set (block := Block_new (StarData address message signature star)).
  rewrite (submitStar_in_window _ _ _ _ _ _ _ Hlen Hwin), Hsig.
  fold block.
  destruct (addBlock_effect self block now_add)
    as (b1 & Hchain1 & Hbody1 & _).
  destruct (addBlock_effect (fst (_addBlock self block now_add)) block
              now_add')
    as (b2 & Hchain2 & Hbody2 & _).
  exists b1, b2. rewrite Hchain2, Hchain1, <- app_assoc.
  split; [reflexivity|]. split; [exact Hbody1 | congruence].
Qed.

(** *** After construction *)

Lemma built_genesis (self : Blockchain) :
  built self ->
  exists genesis rest,
    chain self = genesis :: rest
    /\ body genesis = encode GenesisData
    /\ height genesis = 0
    /\ previousBlockHash genesis = JS.Plain None.
Proof.
  induction 1 as [now|self address message signature star now now_add _ IH].
  - do 2 eexists. split; [reflexivity|]. now repeat split.
  - destruct IH as (genesis & rest & Hchain & Hfacts).
    unfold submitStar.
    destruct (List.length (JS.split ":" message) =? 3)%nat; eauto.
    destruct (in_window _ _); eauto.
    destruct (verify message address signature); simpl; eauto.
    destruct (addBlock_effect self
                (Block_new (StarData address message signature star)) now_add)
      as (b & Hchain' & _).
    exists genesis, (rest ++ [b])%list. rewrite Hchain', Hchain.
    split; [reflexivity | exact Hfacts].
Qed.

(** X18.  Whatever has been submitted since, a store built through the
    class still starts with the genesis block (the encoded sentinel,
    height 0, no previous hash), [getBlockByHeight] at 0 returns it, and a
    lookup by hash never stays pending: it resolves, with a block or with
    [undefined]. *)
Theorem built_store_keeps_genesis (self : Blockchain) :
  built self ->
  exists genesis,
    nth_error (chain self) 0 = Some genesis
    /\ body genesis = encode GenesisData
    /\ previousBlockHash genesis = JS.Plain None
    /\ getBlockByHeight self 0 = Resolved genesis
    /\ forall h, exists found,
         getBlockByHash self h = Settles (Resolved found).
Proof.
  intros Hbuilt.
  destruct (built_genesis self Hbuilt)
    as (genesis & rest & Hchain & Hbody & Hheight & Hprev).
  exists genesis. rewrite Hchain.
  split; [reflexivity|]. split; [exact Hbody|]. split; [exact Hprev|].
  split.
  - unfold getBlockByHeight. rewrite Hchain. simpl.
    now rewrite Hheight.
  - intros h. unfold getBlockByHash. rewrite Hchain. simpl. eauto.
Qed.

End Ledger.

(** ** The further properties on the sample instance *)

Lemma sample_store_1_reachable : reachable (C := sample) sample_store_1.
Proof.
  unfold sample_store_1, sample_store_0.
  apply submitStar_reachable, constructor_reachable.
Qed.

Lemma sample_store_2_built : built (C := sample) sample_store_2.
Proof.
  unfold sample_store_2, sample_store_1, sample_store_0.
  do 2 apply built_submitStar. apply built_constructor.
Qed.

(** X1 on the sample: the block at height 1 of the three-block store. *)
Lemma getBlockByHeight_in_range_witness :
  exists b,
    getBlockByHeight sample_store_2 1 = Resolved b
    /\ nth_error (chain sample_store_2) 1 = Some b
    /\ height b = 1.
Proof.
  destruct (getBlockByHeight_in_range (C := sample) sample_store_2 1
              sample_store_2_reachable) as (top & Htop & Hin & _).
  injection Htop as <-.
  apply Hin. vm_compute. split; discriminate.
Defined.

(** X3 on the sample: the block of the second submission is found by its
    hash. *)
Lemma getBlockByHash_after_addBlock_witness :
  exists h,
    hash (nth 2 (chain sample_store_2) unhashed_tip) = Some h
    /\ ((forall old, In old (chain sample_store_1) -> hash old <> Some h) ->
        getBlockByHash
          (fst (_addBlock (C := sample) sample_store_1
                  (Block_new (C := sample)
                     (StarData "addr2" sample_message_2
                        ("signed:" ++ sample_message_2) "Deneb"))
                  1700000400000))
          h
        = Settles
            (Resolved (Some (nth 2 (chain sample_store_2) unhashed_tip)))).
Proof.
  apply (getBlockByHash_after_addBlock (C := sample) sample_store_1
           (Block_new (C := sample)
              (StarData "addr2" sample_message_2
                 ("signed:" ++ sample_message_2) "Deneb"))
           (nth 2 (chain sample_store_2) unhashed_tip) 1700000400000).
  - vm_compute. discriminate.
  - vm_compute. reflexivity.
Defined.

(** X5 on the sample. *)
Lemma validateChain_accepts_built_chain_witness :
  validateChain (C := sample) sample_store_2
  = (sample_store_2, Resolved "Chain is valid").
Proof.
  exact (validateChain_accepts_built_chain (C := sample) sample_store_2
           sample_store_2_built).
Defined.

(** X7 on the sample: the block at height 1 with another payload, between
    the genesis block and the block at height 2. *)
Lemma validateChain_pinpoints_tampering_witness :
  validateChain (C := sample)
    (mkBlockchain
       (firstn 1 (chain sample_store_2)
        ++ nth 1 (chain sample_store_tampered) unhashed_tip
        :: skipn 2 (chain sample_store_2))
       2)
  = (mkBlockchain
       (firstn 1 (chain sample_store_2)
        ++ nth 1 (chain sample_store_tampered) unhashed_tip
        :: skipn 2 (chain sample_store_2))
       2,
     Rejected
       [TamperedData (nth 1 (chain sample_store_tampered) unhashed_tip)]).
Proof.
  apply (validateChain_pinpoints_tampering (C := sample)
           (firstn 1 (chain sample_store_2)) (skipn 2 (chain sample_store_2))
           (nth 1 (chain sample_store_tampered) unhashed_tip) 2).
  - intros b Hb. vm_compute in Hb.
    destruct Hb as [<-|[<-|[]]];
      (split; [vm_compute; reflexivity | discriminate]).
  - vm_compute. reflexivity.
Defined.

(** X8 on the sample: the chain without its block at height 1. *)
Lemma validateChain_blind_to_removal_witness :
  snd (validateChain (C := sample)
         (mkBlockchain (chain sample_store_cut) 2))
  = Resolved "Chain is valid".
Proof.
  apply (validateChain_blind_to_removal (C := sample) sample_store_2
           (chain sample_store_cut) 2).
  - vm_compute. reflexivity.
  - intros b Hb. vm_compute in Hb.
    destruct Hb as [<-|[<-|[]]]; vm_compute; auto.
Defined.

(** X9 on the sample: a challenge for the address [ad:dr]. *)
Lemma challenge_with_colon_rejected_witness :
  submitStar (C := sample) sample_store_0 "ad:dr"
    "ad:dr:1700000000:starRegistry" "signed:ad:dr:1700000000:starRegistry"
    "Vega" 1700000010500 1700000010501
  = (sample_store_0, Rejected IncorrectMessageFormat).
Proof.
  apply (challenge_with_colon_rejected (C := sample) sample_store_0 "ad:dr"
           "ad:dr" "ad:dr:1700000000:starRegistry"
           "signed:ad:dr:1700000000:starRegistry" "Vega"
           1700000000000 1700000010500 1700000010501).
  - reflexivity.
  - reflexivity.
Defined.

(** X10 on the sample: the first challenge, redeemed 299 seconds after it
    was issued. *)
Lemma challenge_window_witness :
  submitStar (C := sample) sample_store_0 "addr1" sample_message_1
    ("signed:" ++ sample_message_1) "Vega" 1700000299999 1700000300000
  = _addBlock (C := sample) sample_store_0
      (Block_new (C := sample)
         (StarData "addr1" sample_message_1 ("signed:" ++ sample_message_1)
            "Vega"))
      1700000300000.
Proof.
  refine (proj1 (challenge_window (C := sample) sample_store_0 "addr1"
                   sample_message_1 ("signed:" ++ sample_message_1) "Vega"
                   1700000000000 1700000299999 1700000300000 _ _ _) _ _).
  - reflexivity.
  - lia.
  - reflexivity.
  - vm_compute. reflexivity.
  - reflexivity.
Defined.

(** X11 on the sample: the clock at 999 milliseconds. *)
Lemma submitStar_clock_without_seconds_witness :
  currentTime 999 = None
  /\ submitStar (C := sample) sample_store_0 "addr1" "addr1:1:starRegistry"
       "signed:addr1:1:starRegistry" "Vega" 999 999
     = (sample_store_0, Rejected IncorrectTime).
Proof.
  apply (submitStar_clock_without_seconds (C := sample) sample_store_0
           "addr1" "addr1:1:starRegistry" "signed:addr1:1:starRegistry"
           "Vega" 999 999).
  - lia.
  - reflexivity.
Defined.

(** X12 on the sample. *)
Lemma addBlock_time_in_seconds_witness :
  exists b',
    chain (fst (_addBlock (C := sample) sample_store_0
                  (Block_new (C := sample)
                     (StarData "addr1" sample_message_1 "sig" "Vega"))
                  1700000010501))
    = (chain sample_store_0 ++ [b'])%list
    /\ JS.parseInt (time b') = Some (1700000010501 / 1000).
Proof.
  apply (addBlock_time_in_seconds (C := sample) sample_store_0
           (Block_new (C := sample)
              (StarData "addr1" sample_message_1 "sig" "Vega"))
           1700000010501).
  lia.
Defined.

(** X14 on the sample: the second submission. *)
Lemma submitStar_links_to_tip_witness :
  exists b tip,
    TheBlock (nth 2 (chain sample_store_2) unhashed_tip) = TheBlock b
    /\ nth_error (chain sample_store_1)
         (List.length (chain sample_store_1) - 1) = Some tip
    /\ previousBlockHash b = JS.Plain (hash tip)
    /\ height b = height tip + 1
    /\ getChainHeight sample_store_2 = Resolved (height b)
    /\ getBlockByHeight sample_store_2 (height b) = Resolved b.
Proof.
  apply (submitStar_links_to_tip (C := sample) sample_SHA256_nonempty
           sample_store_1 "addr2" sample_message_2
           ("signed:" ++ sample_message_2) "Deneb"
           1700000399999 1700000400000
           (TheBlock (nth 2 (chain sample_store_2) unhashed_tip))).
  - exact sample_store_1_reachable.
  - vm_compute. discriminate.
  - vm_compute. reflexivity.
Defined.

(** X15 on the sample: after the second submission the query for [addr2]
    gains the pair of that submission. *)
Lemma getStars_after_submitStar_witness :
  stars_after (C := sample) "addr2"
    (getStarsByWalletAddress (C := sample) sample_store_2 "addr2")
    (chain sample_store_2)
  = (stars_after (C := sample) "addr2"
       (getStarsByWalletAddress (C := sample) sample_store_1 "addr2")
       (chain sample_store_1)
     ++ (if String.eqb "addr2" "addr2"
         then [mkStarEntry (Some "addr2") (Some "Deneb")]
         else []))%list.
Proof.
  apply (getStars_after_submitStar (C := sample) sample_store_1 "addr2"
           sample_message_2 ("signed:" ++ sample_message_2) "Deneb"
           1700000399999 1700000400000
           (nth 2 (chain sample_store_2) unhashed_tip)
           (mkBData (Some "addr2") (Some "Deneb")) "addr2").
  - vm_compute. reflexivity.
  - vm_compute. reflexivity.
  - reflexivity.
Defined.

(** X16 on the sample: a message with another tag, signed and submitted
    ten seconds after its time stamp. *)
Lemma submitStar_ignores_owner_and_tag_witness :
  submitStar (C := sample) sample_store_0 "addr1"
    ("nobody" ++ ":" ++ seconds_string 1700000000000 ++ ":" ++ "anything")
    "signed:nobody:1700000000:anything" "Vega" 1700000010500 1700000010501
  = _addBlock (C := sample) sample_store_0
      (Block_new (C := sample)
         (StarData "addr1"
            ("nobody" ++ ":" ++ seconds_string 1700000000000 ++ ":"
             ++ "anything")
            "signed:nobody:1700000000:anything" "Vega"))
      1700000010501.
Proof.
  apply (submitStar_ignores_owner_and_tag (C := sample) sample_store_0
           "addr1" "nobody" "anything" "signed:nobody:1700000000:anything"
           "Vega" 1700000000000 1700000010500 1700000010501).
  - reflexivity.
  - reflexivity.
  - lia.
  - lia.
  - vm_compute. reflexivity.
  - vm_compute. reflexivity.
Defined.

(** X17 on the sample: the first submission, made twice. *)
Lemma submitStar_accepts_replay_witness :
  exists b1 b2,
    chain (fst (submitStar (C := sample) sample_store_1 "addr1"
                  sample_message_1 ("signed:" ++ sample_message_1) "Vega"
                  1700000010500 1700000010502))
    = (chain sample_store_0 ++ [b1; b2])%list
    /\ body b1
       = encode (Collaborators := sample)
           (StarData "addr1" sample_message_1
              ("signed:" ++ sample_message_1) "Vega")
    /\ body b2 = body b1.
Proof.
  apply (submitStar_accepts_replay (C := sample) sample_store_0 "addr1"
           sample_message_1 ("signed:" ++ sample_message_1) "Vega"
           1700000010500 1700000010501 1700000010502
           (TheBlock (nth 1 (chain sample_store_1) unhashed_tip))).
  vm_compute. reflexivity.
Defined.

(** X18 on the sample. *)
Lemma built_store_keeps_genesis_witness :
  exists genesis,
    nth_error (chain sample_store_2) 0 = Some genesis
    /\ body genesis = encode (Collaborators := sample) GenesisData
    /\ previousBlockHash genesis = JS.Plain None
    /\ getBlockByHeight sample_store_2 0 = Resolved genesis
    /\ forall h, exists found,
         getBlockByHash sample_store_2 h = Settles (Resolved found).
Proof.
  exact (built_store_keeps_genesis (C := sample) sample_store_2
           sample_store_2_built).
Defined.

(** ** Values outside the typed chain, and the moment of resolution *)

(** C2, the claim as stated fails: the block [nan_linked_block] passes
    self-validation, has height 1 and holds [NaN] as its previous hash;
    the linkage test fires on it and [validateChain] rejects with a broken
    linkage. *)
Lemma validateChain_NaN_link_counterexample :
  validate (C := sample) nan_linked_block = true
  /\ height nan_linked_block = 1
  /\ previousBlockHash nan_linked_block = JS.NaN
  /\ snd (validateChain (C := sample) store_with_nan_link)
     = Rejected [BrokenLinkage JS.NaN nan_linked_block]
  /\ existsb is_broken_linkage
       (snd (validate_loop (C := sample) (chain store_with_nan_link)))
     = true.
Proof.
  repeat split; vm_compute; reflexivity.
Qed.

(** C2 as amended, on the sample: the chain built by the class holds no
    [NaN], and its log no broken linkage. *)
Lemma validateChain_broken_linkage_iff_NaN_witness :
  existsb is_broken_linkage
    (snd (validate_loop (C := sample) (chain sample_store_2)))
  = false.
Proof.
  refine (proj1 (proj2 (proj2 (validateChain_broken_linkage_iff_NaN
                                 (C := sample) sample_store_2)) _)).
  intros b Hb. vm_compute in Hb.
  destruct Hb as [<-|[<-|[<-|[]]]]; reflexivity.
Defined.

(** C9 (the code departs from the claim).  On the three-block sample
    store the blocks whose payload decodes to the address [addr1] give
    one pair.  [resolve(stars)] runs before any reaction: the array is
    empty at that moment, and a caller whose continuation runs before the
    decoding promises settle reads an empty array.  Only when all of them
    were settled at the time of the call does the caller read the pair;
    afterwards the array, which is shared, holds it in either case. *)
Theorem getStarsByWalletAddress_resolves_before_decoding :
  flat_map (star_of (C := sample) "addr1") (chain sample_store_2)
  = [mkStarEntry (Some "addr1") (Some "Vega")]
  /\ stars_at_resolve
       (getStarsByWalletAddress (C := sample) sample_store_2 "addr1")
     = []
  /\ stars_seen_by_caller (C := sample) "addr1"
       (getStarsByWalletAddress (C := sample) sample_store_2 "addr1")
       (fun _ => false)
     = []
  /\ stars_seen_by_caller (C := sample) "addr1"
       (getStarsByWalletAddress (C := sample) sample_store_2 "addr1")
       (fun _ => true)
     = [mkStarEntry (Some "addr1") (Some "Vega")]
  /\ stars_after (C := sample) "addr1"
       (getStarsByWalletAddress (C := sample) sample_store_2 "addr1")
       (chain sample_store_2)
     = [mkStarEntry (Some "addr1") (Some "Vega")].
Proof.
  repeat split; vm_compute; reflexivity.
Qed.
